(** * Replication directives of couchdb-utils ([api/replication.go])

    A shallow embedding of the replication part of the [api] package:
    the directive model ([ReplicationConfig], [Replicator]), the registry
    ([Replicators]), the reconciler ([ReplicateHost]) and the deletion
    flow ([DeleteReplicator], [DeleteAllReplicators]), followed by the
    properties stated about them. *)

From Stdlib Require Import ZArith Ascii String List Lia Permutation.
From stdpp Require Import gmap strings list fin_maps.

Local Open Scope string_scope.
Local Open Scope list_scope.
Local Open Scope Z_scope.

(** ** Go strings

    A Go string is a sequence of bytes; [string] of the Standard Library
    is a sequence of 8-bit [ascii] characters, so the two coincide.
    [s[0]] is the first byte and [len(s)] the number of bytes. *)

Definition bytes_of_string (s : string) : list Z :=
  map (fun c => Z.of_N (N_of_ascii c)) (list_ascii_of_string s).

(** ** [crypto/md5] (RFC 1321)

    The digest used by [GenerateId] comes from Go's standard library.  It
    is written out here over 32-bit words held in [Z], with the wrap-around
    explicit, so that identifiers can be computed. *)
Module MD5.

Definition w32 (x : Z) : Z := x mod 2 ^ 32.
Definition add32 (x y : Z) : Z := w32 (x + y).
Definition not32 (x : Z) : Z := Z.lxor x 0xffffffff.
Definition rotl32 (x : Z) (n : Z) : Z :=
  w32 (Z.lor (Z.shiftl x n) (Z.shiftr x (32 - n))).

Definition K : list Z :=
  [ 0xd76aa478; 0xe8c7b756; 0x242070db; 0xc1bdceee;
    0xf57c0faf; 0x4787c62a; 0xa8304613; 0xfd469501;
    0x698098d8; 0x8b44f7af; 0xffff5bb1; 0x895cd7be;
    0x6b901122; 0xfd987193; 0xa679438e; 0x49b40821;
    0xf61e2562; 0xc040b340; 0x265e5a51; 0xe9b6c7aa;
    0xd62f105d; 0x02441453; 0xd8a1e681; 0xe7d3fbc8;
    0x21e1cde6; 0xc33707d6; 0xf4d50d87; 0x455a14ed;
    0xa9e3e905; 0xfcefa3f8; 0x676f02d9; 0x8d2a4c8a;
    0xfffa3942; 0x8771f681; 0x6d9d6122; 0xfde5380c;
    0xa4beea44; 0x4bdecfa9; 0xf6bb4b60; 0xbebfbc70;
    0x289b7ec6; 0xeaa127fa; 0xd4ef3085; 0x04881d05;
    0xd9d4d039; 0xe6db99e5; 0x1fa27cf8; 0xc4ac5665;
    0xf4292244; 0x432aff97; 0xab9423a7; 0xfc93a039;
    0x655b59c3; 0x8f0ccc92; 0xffeff47d; 0x85845dd1;
    0x6fa87e4f; 0xfe2ce6e0; 0xa3014314; 0x4e0811a1;
    0xf7537e82; 0xbd3af235; 0x2ad7d2bb; 0xeb86d391 ].

Definition shifts : list Z :=
  [ 7; 12; 17; 22; 7; 12; 17; 22; 7; 12; 17; 22; 7; 12; 17; 22;
    5;  9; 14; 20; 5;  9; 14; 20; 5;  9; 14; 20; 5;  9; 14; 20;
    4; 11; 16; 23; 4; 11; 16; 23; 4; 11; 16; 23; 4; 11; 16; 23;
    6; 10; 15; 21; 6; 10; 15; 21; 6; 10; 15; 21; 6; 10; 15; 21 ].

(** The chaining value: the four words A, B, C, D. *)
Record digest := Digest { dA : Z; dB : Z; dC : Z; dD : Z }.

Definition init : digest :=
  Digest 0x67452301 0xefcdab89 0x98badcfe 0x10325476.

(** Little-endian packing of bytes into a word and back. *)
Definition le_word (bs : list Z) : Z :=
  fold_right (fun b acc => b + 256 * acc) 0 bs.

Definition le_bytes (n : nat) (x : Z) : list Z :=
  map (fun i => (x / 2 ^ (8 * Z.of_nat i)) mod 256) (seq 0 n).

Fixpoint words (n : nat) (bs : list Z) : list Z :=
  match n with
  | O => []
  | S n' => le_word (firstn 4 bs) :: words n' (skipn 4 bs)
  end.

Definition round_fun (i : Z) (b c d : Z) : Z * Z :=
  if i <? 16 then (Z.lor (Z.land b c) (Z.land (not32 b) d), i)
  else if i <? 32 then (Z.lor (Z.land d b) (Z.land (not32 d) c), (5 * i + 1) mod 16)
  else if i <? 48 then (Z.lxor (Z.lxor b c) d, (3 * i + 5) mod 16)
  else (Z.lxor c (Z.lor b (not32 d)), (7 * i) mod 16).

Definition step (m : list Z) (st : digest) (i : nat) : digest :=
  let '(Digest a b c d) := st in
  let '(f, g) := round_fun (Z.of_nat i) b c d in
  let f' := add32 (add32 (add32 f a) (nth i K 0)) (nth (Z.to_nat g) m 0) in
  Digest d (add32 b (rotl32 f' (nth i shifts 0))) b c.

Definition block (st : digest) (bs : list Z) : digest :=
  let m := words 16 bs in
  let '(Digest a b c d) := fold_left (step m) (seq 0 64) st in
  Digest (add32 (dA st) a) (add32 (dB st) b) (add32 (dC st) c) (add32 (dD st) d).

Fixpoint blocks (fuel : nat) (st : digest) (bs : list Z) : digest :=
  match fuel, bs with
  | S fuel', _ :: _ => blocks fuel' (block st (firstn 64 bs)) (skipn 64 bs)
  | _, _ => st
  end.

(** Padding: a [0x80] byte, zeros up to 56 modulo 64, then the length in
    bits as a 64-bit little-endian number. *)
Definition pad (bs : list Z) : list Z :=
  let n := Z.of_nat (length bs) in
  let zeros := Z.to_nat ((55 - n) mod 64) in
  bs ++ 0x80 :: repeat 0 zeros ++ le_bytes 8 ((8 * n) mod 2 ^ 64).

(** [hasher.Write(bs); hasher.Sum(nil)]: the 16 bytes of the digest. *)
Definition sum (bs : list Z) : list Z :=
  let p := pad bs in
  let '(Digest a b c d) := blocks (length p) init p in
  le_bytes 4 a ++ le_bytes 4 b ++ le_bytes 4 c ++ le_bytes 4 d.

End MD5.

(** ** [fmt.Sprintf("%x", bytes)]: two lowercase hexadecimal digits a byte *)

Definition hex_digits : list ascii :=
  [ "0"; "1"; "2"; "3"; "4"; "5"; "6"; "7";
    "8"; "9"; "a"; "b"; "c"; "d"; "e"; "f" ]%char.

Definition hex_digit (n : Z) : ascii := nth (Z.to_nat n) hex_digits "f"%char.

Fixpoint sprintf_x (bs : list Z) : string :=
  match bs with
  | [] => EmptyString
  | b :: bs' => String (hex_digit (b / 16)) (String (hex_digit (b mod 16)) (sprintf_x bs'))
  end.

Definition md5_hex (s : string) : string := sprintf_x (MD5.sum (bytes_of_string s)).

(** ** [encoding/json] on strings

    [json.Marshal] writes a Go string as a JSON string; a byte that does
    not start a valid UTF-8 sequence is written as U+FFFD, one
    replacement for each such byte.  [UTF8.rune_size] is the size
    [utf8.DecodeRuneInString] reports, with [0] standing for its answer
    [(RuneError, 1)]; [json_string] is the string a reader of the JSON
    gets back. *)
Module UTF8.

Definition byte (c : ascii) : N := N_of_ascii c.

(** The table [first]: the size of the sequence a first byte announces
    ([0] for a byte that starts none) and the range accepted for the
    second byte. *)
Definition first (s0 : N) : nat * (N * N) :=
  (if s0 <? 0x80 then (1%nat, (0, 0))
   else if s0 <? 0xC2 then (0%nat, (0, 0))
   else if s0 <? 0xE0 then (2%nat, (0x80, 0xBF))
   else if s0 =? 0xE0 then (3%nat, (0xA0, 0xBF))
   else if s0 <? 0xED then (3%nat, (0x80, 0xBF))
   else if s0 =? 0xED then (3%nat, (0x80, 0x9F))
   else if s0 <? 0xF0 then (3%nat, (0x80, 0xBF))
   else if s0 =? 0xF0 then (4%nat, (0x90, 0xBF))
   else if s0 <? 0xF4 then (4%nat, (0x80, 0xBF))
   else if s0 =? 0xF4 then (4%nat, (0x80, 0x8F))
   else (0%nat, (0, 0)))%N.

Definition within (lo hi : N) (c : ascii) : bool :=
  ((lo <=? byte c) && (byte c <=? hi))%N.

(** A continuation byte: [locb] to [hicb]. *)
Definition continuation (c : ascii) : bool := within 0x80 0xBF c.

Definition rune_size (s : string) : nat :=
  match s with
  | EmptyString => 0
  | String s0 rest =>
      match first (byte s0) with
      | (1%nat, _) => 1
      | (2%nat, (lo, hi)) =>
          match rest with
          | String s1 _ => if within lo hi s1 then 2 else 0
          | _ => 0
          end
      | (3%nat, (lo, hi)) =>
          match rest with
          | String s1 (String s2 _) =>
              if within lo hi s1 && continuation s2 then 3 else 0
          | _ => 0
          end
      | (4%nat, (lo, hi)) =>
          match rest with
          | String s1 (String s2 (String s3 _)) =>
              if within lo hi s1 && continuation s2 && continuation s3 then 4 else 0
          | _ => 0
          end
      | _ => 0
      end
  end%nat.

(** U+FFFD in UTF-8: the bytes EF BF BD. *)
Definition RuneError : string :=
  String (ascii_of_N 0xEF) (String (ascii_of_N 0xBF) (String (ascii_of_N 0xBD) EmptyString)).

(** [keep] counts the bytes still to copy of the sequence under way. *)
Fixpoint coerce (keep : nat) (s : string) : string :=
  match s with
  | EmptyString => EmptyString
  | String c rest =>
      match keep with
      | S k => String c (coerce k rest)
      | O =>
          match rune_size (String c rest) with
          | O => String.append RuneError (coerce 0 rest)
          | S k => String c (coerce k rest)
          end
      end
  end.

End UTF8.

Definition json_string (s : string) : string := UTF8.coerce 0 s.

(** ** Declarations of the package that live in other files

    [Couchdb] (a host handle with its [url] method), [UserCtx] (the
    session's identity) and Go's [error] values are declared outside
    [replication.go]; they are taken as parameters. *)

Class Api := {
  Couchdb : Type;
  UserCtx : Type;
  error : Type;
  (** the zero value of [UserCtx] *)
  zeroUserCtx : UserCtx;
  (** [c.url(path)]: the locator of [path] on host [c] *)
  url : Couchdb -> string -> string;
}.

Inductive result (A : Type) : Type :=
| Ok (a : A)
| Panic.
Arguments Ok {A} a.
Arguments Panic {A}.

Section Model.
Context {api : Api}.

(** *** The directive model *)

Record ReplicationConfig := mkReplicationConfig {
  ID : string;
  REV : string;
  Source : string;
  Target : string;
  Cancel : bool;
  CreateTarget : bool;
  Continuous : bool;
  conf_UserCtx : UserCtx;
  Push : bool;
}.

Definition set_ID (r : ReplicationConfig) (v : string) : ReplicationConfig :=
  mkReplicationConfig v (REV r) (Source r) (Target r) (Cancel r) (CreateTarget r)
    (Continuous r) (conf_UserCtx r) (Push r).
Definition set_REV (r : ReplicationConfig) (v : string) : ReplicationConfig :=
  mkReplicationConfig (ID r) v (Source r) (Target r) (Cancel r) (CreateTarget r)
    (Continuous r) (conf_UserCtx r) (Push r).
Definition set_Source (r : ReplicationConfig) (v : string) : ReplicationConfig :=
  mkReplicationConfig (ID r) (REV r) v (Target r) (Cancel r) (CreateTarget r)
    (Continuous r) (conf_UserCtx r) (Push r).
Definition set_Target (r : ReplicationConfig) (v : string) : ReplicationConfig :=
  mkReplicationConfig (ID r) (REV r) (Source r) v (Cancel r) (CreateTarget r)
    (Continuous r) (conf_UserCtx r) (Push r).
Definition set_UserCtx (r : ReplicationConfig) (v : UserCtx) : ReplicationConfig :=
  mkReplicationConfig (ID r) (REV r) (Source r) (Target r) (Cancel r) (CreateTarget r)
    (Continuous r) v (Push r).

Definition hasId (r : ReplicationConfig) : bool := negb (String.eqb (ID r) "").

(** The JSON object [json.Marshal] writes for a [ReplicationConfig], as
    a reader decodes it: [_id] and [_rev] are [omitempty], left out when
    the Go string is empty; every string goes through [json_string];
    [Push] is never written. *)
Record JsonDirective := mkJsonDirective {
  json_id : option string;
  json_rev : option string;
  json_source : string;
  json_target : string;
  json_cancel : bool;
  json_create_target : bool;
  json_continuous : bool;
  json_user_ctx : UserCtx;
}.

Definition omitempty (s : string) : option string :=
  if String.eqb s "" then None else Some (json_string s).

Definition marshal (r : ReplicationConfig) : JsonDirective :=
  mkJsonDirective (omitempty (ID r)) (omitempty (REV r))
    (json_string (Source r)) (json_string (Target r))
    (Cancel r) (CreateTarget r) (Continuous r) (conf_UserCtx r).

Definition uniqueName (r : ReplicationConfig) : string := Source r +:+ Target r.

Definition GenerateId (r : ReplicationConfig) : ReplicationConfig :=
  set_ID r (md5_hex (uniqueName r)).

(** The identifier of the directive from [source] to [target]: what
    [GenerateId] leaves in [ID]. *)
Definition Identifier (source target : string) : string :=
  ID (GenerateId
        (mkReplicationConfig "" "" source target false false false zeroUserCtx false)).

Definition path (r : ReplicationConfig) : string :=
  if String.eqb (REV r) "" then "_replicator/" +:+ ID r
  else "_replicator/" +:+ ID r +:+ "?rev=" +:+ REV r.

Record Replicator := mkReplicator {
  Config :> ReplicationConfig;
  Owner : string;
  ReplicationId : string;
  ReplicationState : string;
  ReplicationStateTime : string;
}.

Definition zeroReplicator : Replicator :=
  mkReplicator (mkReplicationConfig "" "" "" "" false false false zeroUserCtx false)
    "" "" "" "".

(** *** The registry: [map[string][]*Replicator] *)

Abbreviation Replicators := (gmap string (list Replicator)).

(** [findById] ranges over the map and then over each group.  Go leaves
    the order of a map range to the runtime, so the order in which the
    groups are visited is the argument [groups]. *)
Fixpoint findById_group (replicators : list Replicator) (id : string) : option Replicator :=
  match replicators with
  | [] => None
  | replicator :: rest =>
      if String.eqb (ID replicator) id then Some replicator
      else findById_group rest id
  end.

Fixpoint findById (groups : list (string * list Replicator)) (id : string) : option Replicator :=
  match groups with
  | [] => None
  | (_, replicators) :: rest =>
      match findById_group replicators id with
      | Some replicator => Some replicator
      | None => findById rest id
      end
  end.

Definition add (r : Replicators) (replicator : Replicator) : Replicators :=
  <[ReplicationId replicator :=
      default [] (r !! ReplicationId replicator) ++ [replicator]]> r.

Record Row := mkRow {
  Id : string;
  row_Replicator : Replicator;
}.

Record replicatorDocs := mkReplicatorDocs {
  TotalRows : Z;
  Offset : Z;
  Rows : list Row;
}.

Definition replicatorDocs_path : string := "_replicator/_all_docs?include_docs=true".

Definition ignoredPrefix : ascii := "_"%char.

(** [len(row.Id) > 0 && row.Id[0] == ignoredPrefix[0]] *)
Definition ignored (id : string) : bool :=
  match id with
  | EmptyString => false
  | String c _ => Ascii.eqb c ignoredPrefix
  end.

Definition replicatorDocs_Replicators (r : replicatorDocs) : Replicators :=
  fold_left (fun replicators row =>
               if ignored (Id row) then replicators
               else add replicators (row_Replicator row))
            (Rows r) ∅.

(** Modelled from the spec: the database descriptor of the database
    lister, declared outside [replication.go]; the spec gives it a [Name],
    which the code reads as [*db.Name]. *)
Record Database := mkDatabase { Name : string }.

Abbreviation Databases := (list Database).

(** The session of a host, declared outside [replication.go]; the code
    reads its [UserCtx] field. *)
Record Session := mkSession { session_UserCtx : UserCtx }.

End Model.

Abbreviation Replicators := (gmap string (list Replicator)).
Abbreviation Databases := (list Database).

(** ** The environment

    The hosts answer the requests of the package, [json.Marshal] may
    refuse a value, and the Go runtime picks the order of every map range.
    None of this is code of [replication.go]: the answers are fields of a
    class, functions of an abstract [World] that each call may change. *)

Class Environment {api : Api} := {
  World : Type;
  (** the [io.ReadCloser] handed back by [del] *)
  ReadCloser : Type;
  (** [c.GetDatabases()] *)
  getDatabases : Couchdb -> World -> (Databases + error) * World;
  (** [c.GetSession()] *)
  getSession : Couchdb -> World -> (Session + error) * World;
  (** [c.getJson(docs, path)] decoding into a [replicatorDocs] *)
  getJson_replicatorDocs :
    Couchdb -> replicatorDocs -> string -> World -> (replicatorDocs * option error) * World;
  (** [c.getJson(replicator, path)] decoding into a [Replicator] *)
  getJson_Replicator :
    Couchdb -> Replicator -> string -> World -> (Replicator * option error) * World;
  (** [c.putJson(jsonObj, jsonBody, path)] *)
  putJson : Couchdb -> JsonDirective -> string -> World -> option error * World;
  (** [c.del(path)]; the body is [None] when it is nil *)
  del : Couchdb -> string -> World -> (option ReadCloser * option error) * World;
  (** [body.Close()] *)
  close : ReadCloser -> World -> World;
  (** the error of [json.Marshal(r)], if any *)
  marshalError : ReplicationConfig -> option error;
  (** the order the runtime gives to one range over a registry *)
  mapRange : Replicators -> World -> list (string * list Replicator) * World;
  (** a range visits every key of the map once *)
  mapRange_Permutation :
    forall (m : Replicators) (w : World), Permutation (mapRange m w).1 (map_to_list m);
}.

Section Operations.
Context {api : Api} {env : Environment}.

(** What the package asked of the hosts. *)
Inductive Request :=
| ReqDatabases (c : Couchdb)
| ReqSession (c : Couchdb)
| ReqGet (c : Couchdb) (path : string)
| ReqPut (c : Couchdb) (path : string) (body : JsonDirective)
| ReqDelete (c : Couchdb) (path : string).

(** A request together with the error it came back with ([None] is nil). *)
Record Exchange := mkExchange {
  request : Request;
  failure : option error;
}.

(** The state threaded through the package: the world, and the exchanges
    made so far, oldest first. *)
Record State := mkState {
  world : World;
  sent : list Exchange;
}.

Definition GetDatabases (c : Couchdb) (st : State) : (Databases + error) * State :=
  match getDatabases c (world st) with
  | (inl databases, w) => (inl databases, mkState w (sent st ++ [mkExchange (ReqDatabases c) None]))
  | (inr err, w) => (inr err, mkState w (sent st ++ [mkExchange (ReqDatabases c) (Some err)]))
  end.

Definition GetSession (c : Couchdb) (st : State) : (Session + error) * State :=
  match getSession c (world st) with
  | (inl session, w) => (inl session, mkState w (sent st ++ [mkExchange (ReqSession c) None]))
  | (inr err, w) => (inr err, mkState w (sent st ++ [mkExchange (ReqSession c) (Some err)]))
  end.

Definition c_putJson (c : Couchdb) (jsonBody : JsonDirective) (path : string) (st : State)
  : option error * State :=
  let '(err, w) := putJson c jsonBody path (world st) in
  (err, mkState w (sent st ++ [mkExchange (ReqPut c path jsonBody) err])).

Definition c_del (c : Couchdb) (path : string) (st : State)
  : (option ReadCloser * option error) * State :=
  let '((body, err), w) := del c path (world st) in
  ((body, err), mkState w (sent st ++ [mkExchange (ReqDelete c path) err])).

(** One range over the registry: the runtime picks the order; nothing is
    asked of the hosts. *)
Definition range (r : Replicators) (st : State) : list (string * list Replicator) * State :=
  let '(groups, w) := mapRange r (world st) in
  (groups, mkState w (sent st)).

(** [toJson]: the body, or the error of [json.Marshal]. *)
Definition toJson (r : ReplicationConfig) : JsonDirective + error :=
  match marshalError r with
  | Some err => inr err
  | None => inl (marshal r)
  end.

Definition Replicators_findById (r : Replicators) (id : string) (st : State)
  : option Replicator * State :=
  let '(groups, st) := range r st in
  (findById groups id, st).

Definition GetReplicators (c : Couchdb) (st : State) : (Replicators + error) * State :=
  let docs := mkReplicatorDocs 0 0 [] in
  let '((docs, err), w) := getJson_replicatorDocs c docs replicatorDocs_path (world st) in
  let st := mkState w (sent st ++ [mkExchange (ReqGet c replicatorDocs_path) err]) in
  match err with
  | Some err => (inr err, st)
  | None => (inl (replicatorDocs_Replicators docs), st)
  end.

Definition GetReplicator (c : Couchdb) (id : string) (st : State)
  : (Replicator * option error) * State :=
  let replicator :=
    mkReplicator (set_ID zeroReplicator id) (Owner zeroReplicator)
      (ReplicationId zeroReplicator) (ReplicationState zeroReplicator)
      (ReplicationStateTime zeroReplicator) in
  let '((replicator', err), w) :=
    getJson_Replicator c replicator (path replicator) (world st) in
  ((replicator', err), mkState w (sent st ++ [mkExchange (ReqGet c (path replicator)) err])).

Definition Replicate (c : Couchdb) (conf : ReplicationConfig) (st : State)
  : option error * State :=
  match toJson conf with
  | inr err => (Some err, st)
  | inl jsonBody =>
      let conf := if hasId conf then conf else GenerateId conf in
      c_putJson c jsonBody (path conf) st
  end.

Definition invalidPrefix : ascii := "_"%char.

(** The directive [ReplicateHost] builds for one database before it looks
    the registry up: source and target by direction, the session's user
    context, and the identifier. *)
Definition directive (remoteCouch : Couchdb) (session : Session)
    (conf : ReplicationConfig) (dbName : string) : ReplicationConfig :=
  let conf :=
    if Push conf
    then set_Target (set_Source conf dbName) (url remoteCouch dbName)
    else set_Target (set_Source conf (url remoteCouch dbName)) dbName in
  let conf := set_UserCtx conf (session_UserCtx session) in
  GenerateId conf.

(** What one turn of the loop of [ReplicateHost] does next. *)
Inductive control :=
| Continue (conf : ReplicationConfig) (replicatedDbs : Databases)
| Return (replicatedDbs : Databases) (err : option error)
| IndexOutOfRange.

Definition ReplicateHost_body (c remoteCouch : Couchdb) (replicators : Replicators)
    (session : Session) (db : Database)
    (conf : ReplicationConfig) (replicatedDbs : Databases) (st : State)
  : control * State :=
  let dbName := Name db in
  match dbName with
  | EmptyString => (IndexOutOfRange, st)
  | String dbName0 _ =>
      if Ascii.eqb dbName0 invalidPrefix then (Continue conf replicatedDbs, st)
      else
        let conf := directive remoteCouch session conf dbName in
        let '(found, st) := Replicators_findById replicators (ID conf) st in
        let submit (conf : ReplicationConfig) :=
          let '(err, st) := Replicate c conf st in
          match err with
          | Some err => (Return replicatedDbs (Some err), st)
          | None => (Continue conf (replicatedDbs ++ [db]), st)
          end in
        match found with
        | Some existingReplicator =>
            if String.eqb (ReplicationState existingReplicator) "triggered"
            then (Continue conf replicatedDbs, st)
            else submit (set_REV conf (REV existingReplicator))
        | None => submit (set_REV conf "")
        end
  end.

Fixpoint ReplicateHost_loop (c remoteCouch : Couchdb) (replicators : Replicators)
    (session : Session) (databases : Databases)
    (conf : ReplicationConfig) (replicatedDbs : Databases) (st : State)
  : result (Databases * option error) * State :=
  match databases with
  | [] => (Ok (replicatedDbs, None), st)
  | db :: rest =>
      match ReplicateHost_body c remoteCouch replicators session db conf replicatedDbs st with
      | (Continue conf replicatedDbs, st) =>
          ReplicateHost_loop c remoteCouch replicators session rest conf replicatedDbs st
      | (Return replicatedDbs err, st) => (Ok (replicatedDbs, err), st)
      | (IndexOutOfRange, st) => (Panic, st)
      end
  end.

Definition ReplicateHost (c remoteCouch : Couchdb) (conf : ReplicationConfig) (st : State)
  : result (Databases * option error) * State :=
  let masterCouch := if Push conf then c else remoteCouch in
  let replicatedDbs : Databases := [] in
  match GetDatabases masterCouch st with
  | (inr err, st) => (Ok (replicatedDbs, Some err), st)
  | (inl databases, st) =>
      match GetReplicators c st with
      | (inr err, st) => (Ok (replicatedDbs, Some err), st)
      | (inl replicators, st) =>
          match GetSession c st with
          | (inr err, st) => (Ok (replicatedDbs, Some err), st)
          | (inl session, st) =>
              ReplicateHost_loop c remoteCouch replicators session databases
                conf replicatedDbs st
          end
      end
  end.

(** [body.Close()] on a nil body is a nil dereference. *)
Definition DeleteReplicator (c : Couchdb) (id : string) (st : State)
  : result (option error) * State :=
  let '((replicator, err), st) := GetReplicator c id st in
  match err with
  | Some err => (Ok (Some err), st)
  | None =>
      let '((body, err), st) := c_del c (path replicator) st in
      match body with
      | None => (Panic, st)
      | Some body => (Ok err, mkState (close body (world st)) (sent st))
      end
  end.

Fixpoint DeleteAllReplicators_group (c : Couchdb) (subReplicators : list Replicator)
    (st : State) : result (option error) * State :=
  match subReplicators with
  | [] => (Ok None, st)
  | replicator :: rest =>
      match DeleteReplicator c (ID replicator) st with
      | (Ok None, st) => DeleteAllReplicators_group c rest st
      | stop => stop
      end
  end.

Fixpoint DeleteAllReplicators_groups (c : Couchdb)
    (groups : list (string * list Replicator)) (st : State)
  : result (option error) * State :=
  match groups with
  | [] => (Ok None, st)
  | (_, subReplicators) :: rest =>
      match DeleteAllReplicators_group c subReplicators st with
      | (Ok None, st) => DeleteAllReplicators_groups c rest st
      | stop => stop
      end
  end.

(** The registry comes back as [None] when the pointer returned is nil. *)
Definition DeleteAllReplicators (c : Couchdb) (st : State)
  : result (option Replicators * option error) * State :=
  match GetReplicators c st with
  | (inr err, st) => (Ok (None, Some err), st)
  | (inl replicators, st) =>
      let '(groups, st) := range replicators st in
      match DeleteAllReplicators_groups c groups st with
      | (Ok err, st) => (Ok (Some replicators, err), st)
      | (Panic, st) => (Panic, st)
      end
  end.

End Operations.

(** ** A small world to run the package in

    Hosts are named by their base address, user contexts and errors are
    strings.  Every host lists the databases [tw_databases]; the control
    collection holds the rows [tw_rows]; a PUT whose source is listed in
    [tw_rejected] is refused, and so is every DELETE when [tw_locked]. *)
Module Fixture.

Definition api : Api :=
  {| Couchdb := string; UserCtx := string; error := string;
     zeroUserCtx := ""; url := fun c p => c +:+ "/" +:+ p |}.

Record TestWorld := mkTestWorld {
  tw_databases : list string;
  tw_rows : list (@Row api);
  tw_rejected : list string;
  tw_locked : bool;
}.

Definition mem (s : string) (l : list string) : bool := existsb (String.eqb s) l.

Definition fetch (rows : list (@Row api)) (p : string) : option (@Replicator api) :=
  row_Replicator <$>
    List.find (fun row => String.eqb ("_replicator/" +:+ ID (row_Replicator row)) p) rows.

Definition env : @Environment api :=
  {| World := TestWorld;
     ReadCloser := unit;
     getDatabases := fun _ w => (inl (map mkDatabase (tw_databases w)), w);
     getSession := fun _ w => (inl (@mkSession api "admin"), w);
     getJson_replicatorDocs := fun _ docs _ w =>
       ((@mkReplicatorDocs api (Z.of_nat (length (tw_rows w))) 0 (tw_rows w), None), w);
     getJson_Replicator := fun _ r p w =>
       match fetch (tw_rows w) p with
       | Some r' => ((r', None), w)
       | None => ((r, Some "not_found"), w)
       end;
     putJson := fun _ body _ w =>
       (if mem (json_source body) (tw_rejected w) then Some "conflict" else None, w);
     del := fun _ _ w => ((Some tt, if tw_locked w then Some "conflict" else None), w);
     close := fun _ w => w;
     marshalError := fun _ => None;
     mapRange := fun m w => (map_to_list m, w);
     mapRange_Permutation := fun m w => Permutation_refl (map_to_list m) |}.

Definition c : @Couchdb api := "http://local".
Definition remoteCouch : @Couchdb api := "http://remote".

Definition conf (push : bool) : @ReplicationConfig api :=
  @mkReplicationConfig api "" "" "" "" false true true "" push.

Definition stored (id rev source target state : string) : @Row api :=
  @mkRow api id
    (@mkReplicator api
       (@mkReplicationConfig api id rev source target false true true "admin" false)
       "admin" ("rep-" +:+ id) state "2014-01-01T00:00:00Z").

Definition start (w : TestWorld) : @State api env := @mkState api env w [].

End Fixture.

(** * Properties *)

(** ** The digest and its hexadecimal form *)

Example md5_empty : md5_hex "" = "d41d8cd98f00b204e9800998ecf8427e".
Proof. vm_compute. reflexivity. Qed.

Example md5_abc : md5_hex "abc" = "900150983cd24fb0d6963f7d28e17f72".
Proof. vm_compute. reflexivity. Qed.

Example md5_message_digest :
  md5_hex "message digest" = "f96b697d7cb7938d525a2f31aaf161d0".
Proof. vm_compute. reflexivity. Qed.

Example md5_two_blocks :
  md5_hex "12345678901234567890123456789012345678901234567890123456789012345678901234567890"
  = "57edf4a22be3c955ac49da2e2107b67a".
Proof. vm_compute. reflexivity. Qed.

Definition is_byte (b : Z) : Prop := 0 <= b < 256.

Definition lower_hex (c : ascii) : Prop := In c hex_digits.

Lemma le_bytes_length n x : length (MD5.le_bytes n x) = n.
Proof. unfold MD5.le_bytes. rewrite length_map. apply length_seq. Qed.

Lemma le_bytes_is_byte n x : Forall is_byte (MD5.le_bytes n x).
Proof.
  unfold MD5.le_bytes. apply Forall_forall. intros b Hb.
  apply list_elem_of_In, in_map_iff in Hb. destruct Hb as (i & <- & _).
  unfold is_byte. apply Z.mod_pos_bound. lia.
Qed.

Lemma sum_length bs : length (MD5.sum bs) = 16%nat.
Proof.
  unfold MD5.sum. destruct (MD5.blocks _ _ _) as [a b c d].
  rewrite !length_app, !le_bytes_length. reflexivity.
Qed.

Lemma sum_is_byte bs : Forall is_byte (MD5.sum bs).
Proof.
  unfold MD5.sum. destruct (MD5.blocks _ _ _) as [a b c d].
  repeat (apply Forall_app; split); apply le_bytes_is_byte.
Qed.

Lemma sprintf_x_length bs : String.length (sprintf_x bs) = (2 * length bs)%nat.
Proof. induction bs as [|b bs IH]; simpl; [reflexivity | rewrite IH; lia]. Qed.

Lemma hex_digit_lower n : lower_hex (hex_digit n).
Proof.
  unfold lower_hex, hex_digit.
  destruct (Nat.lt_ge_cases (Z.to_nat n) (length hex_digits)) as [Hlt | Hge].
  - apply nth_In, Hlt.
  - rewrite nth_overflow by exact Hge. simpl. tauto.
Qed.

Lemma sprintf_x_lower bs : Forall lower_hex (list_ascii_of_string (sprintf_x bs)).
Proof.
  induction bs as [|b bs IH]; simpl; [constructor |].
  apply Forall_cons; split; [apply hex_digit_lower |].
  apply Forall_cons; split; [apply hex_digit_lower | exact IH].
Qed.

Lemma hex_digit_inj m n :
  0 <= m < 16 -> 0 <= n < 16 -> hex_digit m = hex_digit n -> m = n.
Proof.
  intros Hm Hn.
  assert (Hcases : forall k, 0 <= k < 16 ->
            k = 0 \/ k = 1 \/ k = 2 \/ k = 3 \/ k = 4 \/ k = 5 \/ k = 6 \/ k = 7 \/
            k = 8 \/ k = 9 \/ k = 10 \/ k = 11 \/ k = 12 \/ k = 13 \/ k = 14 \/ k = 15)
    by (intros; lia).
  destruct (Hcases m Hm) as [-> | Hm']; repeat (destruct Hm' as [-> | Hm']); try subst m;
    (destruct (Hcases n Hn) as [-> | Hn']; repeat (destruct Hn' as [-> | Hn']); try subst n;
     vm_compute; intros H; first [reflexivity | discriminate H]).
Qed.

Lemma sprintf_x_inj bs bs' :
  Forall is_byte bs -> Forall is_byte bs' -> sprintf_x bs = sprintf_x bs' -> bs = bs'.
Proof.
  intros Hbs. revert bs'. induction Hbs as [|b bs Hb Hbs IH]; intros bs' Hbs' Heq.
  - destruct bs'; [reflexivity | discriminate Heq].
  - destruct Hbs' as [|b' bs' Hb' Hbs']; [discriminate Heq |].
    simpl in Heq. injection Heq as Hhi Hlo Hrest.
    unfold is_byte in Hb, Hb'.
    apply hex_digit_inj in Hhi;
      [| split; [apply Z.div_pos | apply Z.div_lt_upper_bound]; lia ..].
    apply hex_digit_inj in Hlo; [| apply Z.mod_pos_bound; lia ..].
    f_equal; [| apply IH; assumption].
    rewrite (Z.div_mod b 16), (Z.div_mod b' 16) by lia. congruence.
Qed.

Lemma md5_hex_length s : String.length (md5_hex s) = 32%nat.
Proof. unfold md5_hex. rewrite sprintf_x_length, sum_length. reflexivity. Qed.

Lemma md5_hex_nonempty s : md5_hex s <> "".
Proof. intros H. pose proof (md5_hex_length s) as Hl. rewrite H in Hl. discriminate Hl. Qed.

(** [json_string] on the bytes that matter here. *)
Example json_string_plain : json_string "inventory → remote" = "inventory → remote".
Proof. vm_compute. reflexivity. Qed.

Example json_string_invalid_byte :
  json_string (String "a" (String (ascii_of_N 0xFF) "b"))
  = String "a" (UTF8.RuneError +:+ "b").
Proof. vm_compute. reflexivity. Qed.

Example json_string_truncated :
  json_string (String (ascii_of_N 0xE2) (String (ascii_of_N 0x86) ""))
  = UTF8.RuneError +:+ UTF8.RuneError.
Proof. vm_compute. reflexivity. Qed.

Definition is_ascii (c : ascii) : Prop := (N_of_ascii c < 0x80)%N.

Lemma json_string_ascii (s : string) :
  Forall is_ascii (list_ascii_of_string s) -> json_string s = s.
Proof.
  unfold json_string. induction s as [|c s IH]; intros H; [reflexivity |].
  simpl in H. apply Forall_cons in H. destruct H as [Hc Hs].
  change (UTF8.coerce 0 (String c s))
    with (match UTF8.rune_size (String c s) with
          | O => String.append UTF8.RuneError (UTF8.coerce 0 s)
          | S k => String c (UTF8.coerce k s)
          end).
  assert (Hsize : UTF8.rune_size (String c s) = 1%nat).
  { unfold UTF8.rune_size, UTF8.first, UTF8.byte. unfold is_ascii in Hc.
    apply N.ltb_lt in Hc. rewrite Hc. reflexivity. }
  rewrite Hsize, (IH Hs). reflexivity.
Qed.

Lemma lower_hex_is_ascii (c : ascii) : lower_hex c -> is_ascii c.
Proof.
  unfold lower_hex, hex_digits. simpl. intros H.
  repeat (destruct H as [<- | H]; [vm_compute; reflexivity |]). contradiction.
Qed.

Lemma json_string_md5_hex (s : string) : json_string (md5_hex s) = md5_hex s.
Proof.
  apply json_string_ascii. unfold md5_hex.
  eapply Forall_impl; [apply sprintf_x_lower | exact lower_hex_is_ascii].
Qed.

Lemma append_cons (x : ascii) (a b : string) : String x a +:+ b = String x (a +:+ b).
Proof. reflexivity. Qed.

Lemma append_nil (b : string) : "" +:+ b = b.
Proof. reflexivity. Qed.

Lemma append_empty_r (a : string) : a +:+ "" = a.
Proof.
  induction a as [|x a IH]; [reflexivity |]. rewrite append_cons, IH. reflexivity.
Qed.

Lemma append_assoc (a b c : string) : (a +:+ b) +:+ c = a +:+ (b +:+ c).
Proof.
  induction a as [|x a IH]; [reflexivity |].
  rewrite !append_cons, IH. reflexivity.
Qed.

Lemma append_length (a b : string) :
  String.length (a +:+ b) = (String.length a + String.length b)%nat.
Proof.
  induction a as [|x a IH]; [reflexivity |].
  rewrite append_cons. simpl. rewrite IH. reflexivity.
Qed.

Lemma append_inj_same_length (a a' b b' : string) :
  String.length a = String.length a' -> a +:+ b = a' +:+ b' -> a = a' /\ b = b'.
Proof.
  revert a'. induction a as [|x a IH]; intros [|x' a'] Hlen Heq; try discriminate Hlen.
  - auto.
  - rewrite !append_cons in Heq. injection Heq as -> Heq. injection Hlen as Hlen.
    destruct (IH a' Hlen Heq) as [-> ->]. auto.
Qed.

(** A name or identifier is reserved when it starts with an underscore. *)
Definition reserved (s : string) : Prop := exists rest, s = String "_"%char rest.

Lemma reserved_dec (s : string) : {reserved s} + {~ reserved s}.
Proof.
  destruct s as [|x s]; [right; intros [rest H]; discriminate H |].
  destruct (Ascii.eqb x "_"%char) eqn:Hx.
  - left. exists s. apply Ascii.eqb_eq in Hx. rewrite Hx. reflexivity.
  - right. intros [rest H]. injection H as H _. rewrite H in Hx. discriminate Hx.
Defined.

Definition reservedb (s : string) : bool := if reserved_dec s then true else false.

Section Properties.
Context {api : Api} {env : Environment}.

(** ** The identifier *)

Lemma Identifier_md5_hex (s t : string) : Identifier s t = md5_hex (s +:+ t).
Proof. reflexivity. Qed.

Lemma GenerateId_Identifier (r : ReplicationConfig) :
  ID (GenerateId r) = Identifier (Source r) (Target r).
Proof. reflexivity. Qed.

(** C3: [GenerateId] sets the identifier to the lowercase hexadecimal MD5
    digest of the source followed directly by the target, and changes
    nothing else; two configurations with the same source and the same
    target get the same identifier.  The digest is 16 bytes, so the
    identifier is 32 characters long, each one of [0-9a-f]. *)
Theorem GenerateId_md5_of_source_target (r r' : ReplicationConfig) :
  Source r = Source r' ->
  Target r = Target r' ->
  ID (GenerateId r) = sprintf_x (MD5.sum (bytes_of_string (Source r +:+ Target r)))
  /\ ID (GenerateId r') = ID (GenerateId r)
  /\ String.length (ID (GenerateId r)) = 32%nat
  /\ Forall lower_hex (list_ascii_of_string (ID (GenerateId r)))
  /\ set_ID (GenerateId r) (ID r) = r.
Proof.
  intros Hs Ht. repeat split.
  - unfold GenerateId, uniqueName; simpl. rewrite <- Hs, <- Ht. reflexivity.
  - apply md5_hex_length.
  - apply sprintf_x_lower.
  - destruct r; reflexivity.
Qed.

(** C4, as amended: the identifiers of (s, t) and of (t, s) are the digests
    of [s ++ t] and of [t ++ s]; they are equal exactly when the two
    digests are, hence whenever [s ++ t = t ++ s], and they differ for the
    pair of the spec's example. *)
Theorem Identifier_swap (s t : string) :
  (Identifier s t = Identifier t s <->
   MD5.sum (bytes_of_string (s +:+ t)) = MD5.sum (bytes_of_string (t +:+ s)))
  /\ (s +:+ t = t +:+ s -> Identifier s t = Identifier t s)
  /\ Identifier "inventory" "https://remote.example/inventory"
     <> Identifier "https://remote.example/inventory" "inventory".
Proof.
  rewrite !Identifier_md5_hex. unfold md5_hex. split; [split |split].
  - apply sprintf_x_inj; apply sum_is_byte.
  - intros ->. reflexivity.
  - intros ->. reflexivity.
  - vm_compute. discriminate.
Qed.

(** ** The registry *)

(** A replication is registered when some group of the registry holds it. *)
Definition registered (rs : Replicators) (r : Replicator) : Prop :=
  exists k l, rs !! k = Some l /\ r ∈ l.

(** The rows a listing keeps, and the replications of a group. *)
Definition kept (rows : list Row) : list Row :=
  List.filter (fun row => negb (reservedb (Id row))) rows.

Definition group_of (k : string) (rs : list Replicator) : list Replicator :=
  List.filter (fun r => String.eqb (ReplicationId r) k) rs.

Lemma ignored_reserved (id : string) : ignored id = reservedb id.
Proof.
  unfold reservedb. destruct (reserved_dec id) as [[rest ->] | Hn]; [reflexivity |].
  destruct id as [|x id]; [reflexivity |]. simpl.
  destruct (Ascii.eqb_spec x ignoredPrefix) as [-> | Hne]; [| reflexivity].
  exfalso. apply Hn. exists id. reflexivity.
Qed.

Lemma add_lookup (m : Replicators) (r : Replicator) (k : string) :
  default [] (add m r !! k)
  = default [] (m !! k) ++ group_of k [r].
Proof.
  unfold add, group_of; simpl. rewrite lookup_insert.
  destruct (String.eqb_spec (ReplicationId r) k) as [-> | Hne].
  - rewrite decide_True by reflexivity. reflexivity.
  - rewrite decide_False by exact Hne. rewrite app_nil_r. reflexivity.
Qed.

Lemma add_nonempty (m : Replicators) (r : Replicator) :
  (forall k l, m !! k = Some l -> l <> []) ->
  forall k l, add m r !! k = Some l -> l <> [].
Proof.
  intros Hm k l. unfold add. rewrite lookup_insert.
  destruct (decide (ReplicationId r = k)) as [-> | Hne]; [| apply Hm].
  intros [= <-]. destruct (default [] (m !! k)); discriminate.
Qed.

Lemma Replicators_fold (rows : list Row) (m : Replicators) :
  let m' := fold_left (fun replicators row =>
                         if ignored (Id row) then replicators
                         else add replicators (row_Replicator row)) rows m in
  (forall k, default [] (m' !! k)
             = default [] (m !! k) ++ group_of k (map row_Replicator (kept rows)))
  /\ ((forall k l, m !! k = Some l -> l <> []) -> forall k l, m' !! k = Some l -> l <> []).
Proof.
  revert m. induction rows as [|row rows IH]; intros m; simpl.
  - split; [intros k; rewrite app_nil_r; reflexivity | auto].
  - rewrite ignored_reserved. destruct (reservedb (Id row)); simpl.
    + apply IH.
    + destruct (IH (add m (row_Replicator row))) as [IH1 IH2]. split.
      * intros k. rewrite IH1, add_lookup. unfold group_of; simpl.
        destruct (String.eqb _ k); simpl; rewrite <- ?app_assoc; reflexivity.
      * intros Hm. apply IH2, add_nonempty, Hm.
Qed.

Lemma Replicators_lookup (docs : replicatorDocs) (k : string) :
  default [] (replicatorDocs_Replicators docs !! k)
  = group_of k (map row_Replicator (kept (Rows docs))).
Proof.
  unfold replicatorDocs_Replicators.
  destruct (Replicators_fold (Rows docs) ∅) as [H _]. rewrite H, lookup_empty. reflexivity.
Qed.

Lemma Replicators_registered (docs : replicatorDocs) (r : Replicator) :
  registered (replicatorDocs_Replicators docs) r
  <-> exists row, row ∈ Rows docs /\ ~ reserved (Id row) /\ row_Replicator row = r.
Proof.
  assert (Hkept : r ∈ map row_Replicator (kept (Rows docs))
                  <-> exists row, row ∈ Rows docs /\ ~ reserved (Id row)
                                  /\ row_Replicator row = r).
  { rewrite list_elem_of_In, in_map_iff. unfold kept. split.
    - intros (row & <- & Hin). apply filter_In in Hin. destruct Hin as [Hin Hres].
      exists row. rewrite list_elem_of_In. repeat split; [exact Hin |].
      unfold reservedb in Hres. destruct (reserved_dec (Id row)); [discriminate | assumption].
    - intros (row & Hin & Hres & <-). exists row. split; [reflexivity |].
      apply filter_In. rewrite <- list_elem_of_In. split; [exact Hin |].
      unfold reservedb. destruct (reserved_dec (Id row)); [contradiction | reflexivity]. }
  rewrite <- Hkept. clear Hkept. split.
  - intros (k & l & Hk & Hin).
    pose proof (Replicators_lookup docs k) as Hl. rewrite Hk in Hl. simpl in Hl. subst l.
    unfold group_of in Hin. apply list_elem_of_In, filter_In in Hin.
    apply list_elem_of_In, Hin.
  - intros Hin. exists (ReplicationId r).
    pose proof (Replicators_lookup docs (ReplicationId r)) as Hl.
    assert (Hr : r ∈ group_of (ReplicationId r) (map row_Replicator (kept (Rows docs)))).
    { apply list_elem_of_In, filter_In. split; [apply list_elem_of_In, Hin |].
      apply String.eqb_refl. }
    rewrite <- Hl in Hr.
    destruct (replicatorDocs_Replicators docs !! ReplicationId r) as [l|] eqn:Hk.
    + exists l. auto.
    + simpl in Hr. apply elem_of_nil in Hr. contradiction.
Qed.

Lemma findById_group_Some (l : list Replicator) (id : string) (r : Replicator) :
  findById_group l id = Some r -> r ∈ l /\ ID r = id.
Proof.
  induction l as [|x l IH]; simpl; [discriminate |].
  destruct (String.eqb_spec (ID x) id) as [Heq | Hne].
  - intros [= <-]. split; [left | exact Heq].
  - intros H. destruct (IH H) as [Hin Hid]. split; [right; exact Hin | exact Hid].
Qed.

Lemma findById_group_None (l : list Replicator) (id : string) :
  findById_group l id = None -> forall r : Replicator, r ∈ l -> ID r <> id.
Proof.
  induction l as [|x l IH]; simpl; intros H r Hin.
  - apply elem_of_nil in Hin. contradiction.
  - destruct (String.eqb_spec (ID x) id) as [Heq | Hne]; [discriminate H |].
    apply elem_of_cons in Hin. destruct Hin as [-> | Hin]; [exact Hne | exact (IH H r Hin)].
Qed.

Lemma findById_Some (groups : list (string * list Replicator)) (id : string) (r : Replicator) :
  findById groups id = Some r ->
  exists k l, (k, l) ∈ groups /\ r ∈ l /\ ID r = id.
Proof.
  induction groups as [|[k l] groups IH]; simpl; [discriminate |].
  destruct (findById_group l id) as [r'|] eqn:Hl.
  - intros [= <-]. apply findById_group_Some in Hl. exists k, l.
    split; [left | exact Hl].
  - intros H. destruct (IH H) as (k' & l' & Hin & Hr). exists k', l'.
    split; [right; exact Hin | exact Hr].
Qed.

Lemma findById_None (groups : list (string * list Replicator)) (id : string) :
  findById groups id = None ->
  forall k l (r : Replicator), (k, l) ∈ groups -> r ∈ l -> ID r <> id.
Proof.
  induction groups as [|[k0 l0] groups IH]; simpl; intros H k l r Hin Hr.
  - apply elem_of_nil in Hin. contradiction.
  - destruct (findById_group l0 id) eqn:Hl; [discriminate H |].
    apply elem_of_cons in Hin. destruct Hin as [[= -> ->] | Hin].
    + exact (findById_group_None _ _ Hl r Hr).
    + exact (IH H k l r Hin Hr).
Qed.

(** A range asks nothing of the hosts and visits exactly the groups of
    the registry. *)
Lemma range_spec (rs : Replicators) (st st' : State) (groups : list (string * list Replicator)) :
  range rs st = (groups, st') ->
  sent st' = sent st
  /\ Permutation groups (map_to_list rs)
  /\ forall k l, (k, l) ∈ groups <-> rs !! k = Some l.
Proof.
  unfold range. pose proof (mapRange_Permutation rs (world st)) as Hp.
  destruct (mapRange rs (world st)) as [g w]. simpl in Hp. intros [= <- <-].
  split; [reflexivity |]. split; [exact Hp |]. intros k l.
  rewrite <- elem_of_map_to_list. split; intros H.
  - eapply elem_of_Permutation_proper; [symmetry; exact Hp | exact H].
  - eapply elem_of_Permutation_proper; [exact Hp | exact H].
Qed.

Lemma Replicators_findById_spec (rs : Replicators) (id : string) (st st' : State)
    (found : option Replicator) :
  Replicators_findById rs id st = (found, st') ->
  sent st' = sent st
  /\ match found with
     | Some r => registered rs r /\ ID r = id
     | None => forall r : Replicator, registered rs r -> ID r <> id
     end.
Proof.
  unfold Replicators_findById. destruct (range rs st) as [groups st1] eqn:Hrange.
  apply range_spec in Hrange. destruct Hrange as (Hsent & _ & Hgroups).
  intros [= <- <-]. split; [exact Hsent |].
  destruct (findById groups id) as [r|] eqn:Hfind.
  - apply findById_Some in Hfind. destruct Hfind as (k & l & Hin & Hr & Hid).
    split; [| exact Hid]. exists k, l. split; [apply Hgroups, Hin | exact Hr].
  - intros r (k & l & Hk & Hr). eapply findById_None; [exact Hfind | | exact Hr].
    apply Hgroups, Hk.
Qed.

(** ** The reconciler *)

Section Reconcile.
Variables (c remoteCouch : Couchdb) (replicators : Replicators) (session : Session).
(** The configuration [ReplicateHost] was called with. *)
Variable conf : ReplicationConfig.

(** The loop overwrites source, target, user context, identifier and
    revision of its configuration at every turn; the other fields stay
    as the caller set them. *)
Definition same_flags (a b : ReplicationConfig) : Prop :=
  Push a = Push b /\ Cancel a = Cancel b
  /\ CreateTarget a = CreateTarget b /\ Continuous a = Continuous b.

(** The identifier of the directive of a database, and the directive as it
    is submitted with revision [rev]. *)
Definition directive_id (db : Database) : string :=
  ID (directive remoteCouch session conf (Name db)).

Definition desired (db : Database) (rev : string) : ReplicationConfig :=
  set_REV (directive remoteCouch session conf (Name db)) rev.

(** The revision a directive is submitted with: that of a registered
    replication with its identifier which is not triggered (update), or
    none when no registered replication has its identifier (create). *)
Inductive revision_for (id : string) : string -> Prop :=
| revision_update (r : Replicator) :
    registered replicators r -> ID r = id -> ReplicationState r <> "triggered" ->
    revision_for id (REV r)
| revision_create :
    (forall r : Replicator, registered replicators r -> ID r <> id) ->
    revision_for id "".

Definition triggered_in (id : string) : Prop :=
  exists r : Replicator,
    registered replicators r /\ ID r = id /\ ReplicationState r = "triggered".

(** The PUT of the directive of [db]. *)
Definition put_of (db : Database) (rev : string) : Request :=
  ReqPut c (path (desired db rev)) (marshal (desired db rev)).

Definition submission (db : Database) (ex : Exchange) : Prop :=
  exists rev, revision_for (directive_id db) rev
              /\ marshalError (desired db rev) = None
              /\ request ex = put_of db rev.

(** [processed dbs done exs]: every database of [dbs] was either skipped
    (reserved name, or triggered directive) or submitted with success;
    [done] lists the submitted ones and [exs] their exchanges, in order. *)
Inductive processed : Databases -> Databases -> list Exchange -> Prop :=
| processed_nil : processed [] [] []
| processed_reserved db dbs done exs :
    reserved (Name db) ->
    processed dbs done exs ->
    processed (db :: dbs) done exs
| processed_triggered db dbs done exs :
    ~ reserved (Name db) -> Name db <> "" ->
    triggered_in (directive_id db) ->
    processed dbs done exs ->
    processed (db :: dbs) done exs
| processed_submitted db dbs done ex exs :
    ~ reserved (Name db) -> Name db <> "" ->
    submission db ex -> failure ex = None ->
    processed dbs done exs ->
    processed (db :: dbs) (db :: done) (ex :: exs).

(** The submission of [db] failed with [e]: the directive could not be
    marshalled (nothing is sent) or its PUT came back with [e]. *)
Definition failed_submission (db : Database) (e : error) (exs : list Exchange) : Prop :=
  ~ reserved (Name db) /\ Name db <> ""
  /\ exists rev, revision_for (directive_id db) rev
       /\ ((marshalError (desired db rev) = Some e /\ exs = [])
           \/ (marshalError (desired db rev) = None
               /\ exs = [mkExchange (put_of db rev) (Some e)])).

Lemma same_flags_refl (a : ReplicationConfig) : same_flags a a.
Proof. repeat split. Qed.

Lemma directive_same_flags (conf' : ReplicationConfig) (dbName : string) :
  same_flags conf conf' ->
  directive remoteCouch session conf' dbName
  = set_REV (directive remoteCouch session conf dbName) (REV conf').
Proof.
  destruct conf, conf'. unfold same_flags; simpl. intros (-> & -> & -> & ->).
  unfold directive; simpl. destruct Push1; reflexivity.
Qed.

Lemma directive_flags (dbName : string) :
  same_flags conf (directive remoteCouch session conf dbName).
Proof. destruct conf as [? ? ? ? ? ? ? ? []]; repeat split. Qed.

Lemma set_REV_flags (a b : ReplicationConfig) (rev : string) :
  same_flags a b -> same_flags a (set_REV b rev).
Proof. destruct b. exact (fun H => H). Qed.

Lemma set_REV_set_REV (a : ReplicationConfig) (r r' : string) :
  set_REV (set_REV a r) r' = set_REV a r'.
Proof. reflexivity. Qed.

Lemma directive_ID (conf' : ReplicationConfig) (dbName : string) :
  ID (directive remoteCouch session conf' dbName)
  = if Push conf' then Identifier dbName (url remoteCouch dbName)
    else Identifier (url remoteCouch dbName) dbName.
Proof. unfold directive. destruct (Push conf'); reflexivity. Qed.

Lemma directive_hasId (conf' : ReplicationConfig) (dbName rev : string) :
  hasId (set_REV (directive remoteCouch session conf' dbName) rev) = true.
Proof.
  unfold hasId. change (ID (set_REV ?a rev)) with (ID a).
  unfold directive, GenerateId, set_ID; simpl.
  destruct (String.eqb_spec (md5_hex (uniqueName
     (set_UserCtx
        (if Push conf'
         then set_Target (set_Source conf' dbName) (url remoteCouch dbName)
         else set_Target (set_Source conf' (url remoteCouch dbName)) dbName)
        (session_UserCtx session)))) "") as [H | H]; [| reflexivity].
  exfalso. exact (md5_hex_nonempty _ H).
Qed.

(** [Replicate] of a directive of the loop: either the marshalling error,
    or one PUT of the marshalled directive at its address. *)
Lemma Replicate_desired (db : Database) (rev : string) (st : State) :
  Replicate c (desired db rev) st
  = match marshalError (desired db rev) with
    | Some err => (Some err, st)
    | None =>
        let '(err, w) := putJson c (marshal (desired db rev)) (path (desired db rev)) (world st) in
        (err, mkState w (sent st ++ [mkExchange (put_of db rev) err]))
    end.
Proof.
  unfold Replicate, toJson. destruct (marshalError (desired db rev)); [reflexivity |].
  pose proof (directive_hasId conf (Name db) rev) as Hid. fold (desired db rev) in Hid.
  rewrite Hid. reflexivity.
Qed.

(** One turn of the loop, by what it does next. *)
Definition body_post (db : Database) (conf' : ReplicationConfig) (acc : Databases)
    (st : State) (ctl : control) (st' : State) : Prop :=
  match ctl with
  | IndexOutOfRange => Name db = "" /\ st' = st
  | Continue conf'' acc' =>
      same_flags conf conf''
      /\ ((reserved (Name db) /\ conf'' = conf' /\ acc' = acc /\ st' = st)
          \/ (~ reserved (Name db) /\ Name db <> "" /\ triggered_in (directive_id db)
              /\ acc' = acc /\ sent st' = sent st)
          \/ (~ reserved (Name db) /\ Name db <> "" /\ acc' = acc ++ [db]
              /\ exists ex, submission db ex /\ failure ex = None
                            /\ sent st' = sent st ++ [ex]))
  | Return dbs err =>
      dbs = acc
      /\ exists e exs, err = Some e /\ failed_submission db e exs
                       /\ sent st' = sent st ++ exs
  end.

Lemma ReplicateHost_body_spec (db : Database) (conf' : ReplicationConfig)
    (acc : Databases) (st st' : State) (ctl : control) :
  same_flags conf conf' ->
  ReplicateHost_body c remoteCouch replicators session db conf' acc st = (ctl, st') ->
  body_post db conf' acc st ctl st'.
Proof.
  intros Hflags. unfold ReplicateHost_body.
  destruct (reserved_dec (Name db)) as [Hres | Hres].
  { destruct Hres as [rest Hname]. rewrite Hname. simpl.
    intros [= <- <-]. split; [exact Hflags |]. left.
    repeat split. exists rest. exact Hname. }
  destruct (Name db) as [|x name] eqn:Hname.
  { intros [= <- <-]. split; [exact Hname | reflexivity]. }
  destruct (Ascii.eqb_spec x invalidPrefix) as [-> | _].
  { exfalso. apply Hres. exists name. reflexivity. }
  rewrite <- Hname in Hres |- *.
  assert (Hne : Name db <> "") by (rewrite Hname; discriminate).
  rewrite (directive_same_flags conf' (Name db) Hflags).
  change (ID (set_REV ?a ?r)) with (ID a). rewrite !set_REV_set_REV.
  fold (directive_id db).
  destruct (Replicators_findById replicators (directive_id db) st) as [found st1] eqn:Hfind.
  apply Replicators_findById_spec in Hfind. destruct Hfind as [Hsent Hfound].
  assert (Hsubmit : forall rev,
    revision_for (directive_id db) rev ->
    (let '(err, st2) := Replicate c (desired db rev) st1 in
     match err with
     | Some err => (Return acc (Some err), st2)
     | None => (Continue (desired db rev) (acc ++ [db]), st2)
     end) = (ctl, st') ->
    body_post db conf' acc st ctl st').
  { intros rev Hrev. rewrite Replicate_desired.
    destruct (marshalError (desired db rev)) as [e|] eqn:Hm.
    - intros [= <- <-]. split; [reflexivity |]. exists e, [].
      split; [reflexivity |]. split; [| rewrite app_nil_r; exact Hsent].
      repeat split; [exact Hres | exact Hne |]. exists rev. split; [exact Hrev |].
      left. split; [exact Hm | reflexivity].
    - destruct (putJson c (marshal (desired db rev)) (path (desired db rev)) (world st1))
        as [[e|] w] eqn:Hput.
      + intros [= <- <-]. split; [reflexivity |].
        exists e, [mkExchange (put_of db rev) (Some e)].
        split; [reflexivity |]. split; [| simpl; rewrite Hsent; reflexivity].
        repeat split; [exact Hres | exact Hne |]. exists rev. split; [exact Hrev |].
        right. split; [exact Hm | reflexivity].
      + intros [= <- <-]. split.
        { unfold desired. apply set_REV_flags, directive_flags. }
        right. right. repeat split; [exact Hres | exact Hne |].
        exists (mkExchange (put_of db rev) None). split.
        { exists rev. repeat split; [exact Hrev | exact Hm]. }
        split; [reflexivity |]. simpl. rewrite Hsent. reflexivity. }
  destruct found as [r|].
  - destruct Hfound as [Hreg Hid].
    destruct (String.eqb_spec (ReplicationState r) "triggered") as [Htrig | Htrig].
    + intros [= <- <-]. split.
      { apply set_REV_flags, directive_flags. }
      right. left. repeat split; [exact Hres | exact Hne | | exact Hsent].
      exists r. repeat split; assumption.
    + apply Hsubmit. rewrite <- Hid. apply revision_update; [exact Hreg | reflexivity | exact Htrig].
  - apply Hsubmit. apply revision_create. exact Hfound.
Qed.

(** The whole loop, by its result: every run is told by [processed] up
    to the database it stopped at. *)
Definition loop_post (databases acc : Databases) (st : State)
    (res : result (Databases * option error)) (st' : State) : Prop :=
  exists exs, sent st' = sent st ++ exs /\
  match res with
  | Ok (dbs, None) =>
      exists done, dbs = acc ++ done /\ processed databases done exs
  | Ok (dbs, Some e) =>
      exists pre db post done exs0 tail,
        databases = pre ++ db :: post /\ dbs = acc ++ done
        /\ processed pre done exs0 /\ failed_submission db e tail
        /\ exs = exs0 ++ tail
  | Panic =>
      exists pre db post done,
        databases = pre ++ db :: post /\ processed pre done exs /\ Name db = ""
  end.

Lemma loop_post_skip (db : Database) (rest acc : Databases) (st st1 st' : State)
    (res : result (Databases * option error)) :
  (forall dbs done exs, processed dbs done exs -> processed (db :: dbs) done exs) ->
  sent st1 = sent st ->
  loop_post rest acc st1 res st' ->
  loop_post (db :: rest) acc st res st'.
Proof.
  intros Hskip Hsent (exs & Hexs & Hres). exists exs.
  split; [rewrite Hexs, Hsent; reflexivity |].
  destruct res as [[dbs [e|]]|].
  - destruct Hres as (pre & db' & post & done & exs0 & tail & -> & -> & Hpre & Hfail & ->).
    exists (db :: pre), db', post, done, exs0, tail.
    split; [reflexivity |]. split; [reflexivity |]. split; [apply Hskip, Hpre |].
    split; [exact Hfail | reflexivity].
  - destruct Hres as (done & -> & Hp). exists done. split; [reflexivity | apply Hskip, Hp].
  - destruct Hres as (pre & db' & post & done & -> & Hpre & Hname).
    exists (db :: pre), db', post, done.
    split; [reflexivity |]. split; [apply Hskip, Hpre | exact Hname].
Qed.

Lemma loop_post_submitted (db : Database) (rest acc : Databases) (st st1 st' : State)
    (ex : Exchange) (res : result (Databases * option error)) :
  ~ reserved (Name db) -> Name db <> "" ->
  submission db ex -> failure ex = None ->
  sent st1 = sent st ++ [ex] ->
  loop_post rest (acc ++ [db]) st1 res st' ->
  loop_post (db :: rest) acc st res st'.
Proof.
  intros Hres Hne Hsub Hok Hsent (exs & Hexs & Hpost). exists (ex :: exs).
  split; [rewrite Hexs, Hsent, <- app_assoc; reflexivity |].
  destruct res as [[dbs [e|]]|].
  - destruct Hpost as (pre & db' & post & done & exs0 & tail & -> & -> & Hpre & Hfail & ->).
    exists (db :: pre), db', post, (db :: done), (ex :: exs0), tail.
    split; [reflexivity |]. split; [rewrite <- app_assoc; reflexivity |].
    split; [apply processed_submitted; assumption |].
    split; [exact Hfail | reflexivity].
  - destruct Hpost as (done & -> & Hp). exists (db :: done).
    split; [rewrite <- app_assoc; reflexivity |].
    apply processed_submitted; assumption.
  - destruct Hpost as (pre & db' & post & done & -> & Hpre & Hname).
    exists (db :: pre), db', post, (db :: done).
    split; [reflexivity |]. split; [apply processed_submitted; assumption | exact Hname].
Qed.

Lemma ReplicateHost_loop_spec (databases : Databases) :
  forall (conf' : ReplicationConfig) (acc : Databases) (st st' : State)
         (res : result (Databases * option error)),
    same_flags conf conf' ->
    ReplicateHost_loop c remoteCouch replicators session databases conf' acc st = (res, st') ->
    loop_post databases acc st res st'.
Proof.
  induction databases as [|db rest IH]; intros conf' acc st st' res Hflags; simpl.
  - intros [= <- <-]. exists []. split; [rewrite app_nil_r; reflexivity |].
    exists []. split; [rewrite app_nil_r; reflexivity | constructor].
  - destruct (ReplicateHost_body c remoteCouch replicators session db conf' acc st)
      as [ctl st1] eqn:Hbody.
    apply (ReplicateHost_body_spec _ _ _ _ _ _ Hflags) in Hbody.
    destruct ctl as [conf'' acc' | dbs err |]; simpl in Hbody.
    + destruct Hbody as [Hflags' Hcases]. intros Hloop.
      apply (IH _ _ _ _ _ Hflags') in Hloop.
      destruct Hcases as [(Hres & _ & -> & ->) | [(Hres & Hne & Htrig & -> & Hsent)
                          | (Hres & Hne & -> & ex & Hsub & Hok & Hsent)]].
      * eapply loop_post_skip; [| reflexivity | exact Hloop].
        intros; apply processed_reserved; assumption.
      * eapply loop_post_skip; [| exact Hsent | exact Hloop].
        intros; apply processed_triggered; assumption.
      * eapply loop_post_submitted; eassumption.
    + destruct Hbody as (-> & e & exs & -> & Hfail & Hsent). intros [= <- <-].
      exists exs. split; [exact Hsent |].
      exists [], db, rest, [], [], exs.
      split; [reflexivity |]. split; [rewrite app_nil_r; reflexivity |].
      split; [constructor |]. split; [exact Hfail | reflexivity].
    + destruct Hbody as [Hname ->]. intros [= <- <-].
      exists []. split; [rewrite app_nil_r; reflexivity |].
      exists [], db, rest, [].
      split; [reflexivity |]. split; [constructor | exact Hname].
Qed.

(** What [processed] says of the exchanges and of the databases kept. *)
Lemma processed_Forall2 (dbs done : Databases) (exs : list Exchange) :
  processed dbs done exs ->
  Forall2 (fun db ex => submission db ex /\ failure ex = None) done exs.
Proof. induction 1; auto. Qed.

Lemma processed_sublist (dbs done : Databases) (exs : list Exchange) :
  processed dbs done exs -> sublist done dbs.
Proof. induction 1; [constructor | | | ]; auto using sublist_cons, sublist_skip. Qed.

Lemma processed_names (dbs done : Databases) (exs : list Exchange) :
  processed dbs done exs -> Forall (fun db => Name db <> "") dbs.
Proof.
  induction 1 as [|db dbs done exs [rest Hres] _ IH| |]; constructor; auto.
  rewrite Hres. discriminate.
Qed.

Lemma processed_disposition (dbs done : Databases) (exs : list Exchange) :
  processed dbs done exs ->
  forall db, db ∈ dbs ->
    reserved (Name db)
    \/ triggered_in (directive_id db)
    \/ (db ∈ done /\ exists ex, ex ∈ exs /\ submission db ex /\ failure ex = None).
Proof.
  induction 1 as [|d dbs done exs Hres _ IH|d dbs done exs Hres Hne Htrig _ IH
                  |d dbs done ex exs Hres Hne Hsub Hok _ IH]; intros db Hin.
  - apply elem_of_nil in Hin. contradiction.
  - apply elem_of_cons in Hin. destruct Hin as [-> | Hin]; [left; exact Hres | auto].
  - apply elem_of_cons in Hin. destruct Hin as [-> | Hin]; [right; left; exact Htrig | auto].
  - apply elem_of_cons in Hin. destruct Hin as [-> | Hin].
    + right. right. split; [left |]. exists ex. split; [left | auto].
    + destruct (IH db Hin) as [H1 | [H1 | (H1 & ex' & H2 & H3)]]; auto.
      right. right. split; [right; exact H1 |]. exists ex'. split; [right; exact H2 | exact H3].
Qed.

Lemma processed_exchanges (dbs done : Databases) (exs : list Exchange) :
  processed dbs done exs ->
  forall ex, ex ∈ exs ->
    failure ex = None
    /\ exists db, db ∈ done /\ db ∈ dbs /\ ~ reserved (Name db) /\ submission db ex.
Proof.
  induction 1 as [|d dbs done exs Hres _ IH|d dbs done exs Hres Hne Htrig _ IH
                  |d dbs done ex exs Hres Hne Hsub Hok _ IH]; intros ex' Hin.
  - apply elem_of_nil in Hin. contradiction.
  - destruct (IH ex' Hin) as (Hok & db & H1 & H2 & H3). split; [exact Hok |].
    exists db. split; [exact H1 |]. split; [right; exact H2 | exact H3].
  - destruct (IH ex' Hin) as (Hok & db & H1 & H2 & H3). split; [exact Hok |].
    exists db. split; [exact H1 |]. split; [right; exact H2 | exact H3].
  - apply elem_of_cons in Hin. destruct Hin as [-> | Hin].
    + split; [exact Hok |]. exists d. split; [left |]. split; [left | auto].
    + destruct (IH ex' Hin) as (Hok' & db & H1 & H2 & H3). split; [exact Hok' |].
      exists db. split; [right; exact H1 |]. split; [right; exact H2 | exact H3].
Qed.

(** Every exchange of the loop is the PUT of the directive of a listed
    database whose name is not reserved, with a revision the registry
    allows. *)
Lemma loop_post_exchanges (databases acc : Databases) (st st' : State)
    (res : result (Databases * option error)) :
  loop_post databases acc st res st' ->
  exists exs, sent st' = sent st ++ exs /\
    forall ex, ex ∈ exs ->
      exists db rev, db ∈ databases /\ ~ reserved (Name db)
                     /\ revision_for (directive_id db) rev
                     /\ request ex = put_of db rev.
Proof.
  intros (exs & Hsent & Hres). exists exs. split; [exact Hsent |]. intros ex Hin.
  assert (Hproc : forall dbs done exs0, processed dbs done exs0 -> ex ∈ exs0 ->
            exists db rev, db ∈ dbs /\ ~ reserved (Name db)
                           /\ revision_for (directive_id db) rev
                           /\ request ex = put_of db rev).
  { intros dbs done exs0 Hp Hex.
    destruct (processed_exchanges _ _ _ Hp ex Hex) as (_ & db & _ & Hdb & Hr & rev & H1 & _ & H2).
    exists db, rev. auto. }
  destruct res as [[dbs [e|]]|].
  - destruct Hres as (pre & db & post & done & exs0 & tail & -> & -> & Hpre & Hfail & ->).
    apply elem_of_app in Hin. destruct Hin as [Hin | Hin].
    + destruct (Hproc _ _ _ Hpre Hin) as (db' & rev & H1 & H2).
      exists db', rev. split; [apply elem_of_app; left; exact H1 | exact H2].
    + destruct Hfail as (Hr & _ & rev & Hrev & [[_ ->] | [_ ->]]).
      * apply elem_of_nil in Hin. contradiction.
      * apply list_elem_of_singleton in Hin. subst ex. exists db, rev.
        split; [apply elem_of_app; right; left | auto].
  - destruct Hres as (done & _ & Hp). exact (Hproc _ _ _ Hp Hin).
  - destruct Hres as (pre & db & post & done & -> & Hp & _).
    destruct (Hproc _ _ _ Hp Hin) as (db' & rev & H1 & H2).
    exists db', rev. split; [apply elem_of_app; left; exact H1 | exact H2].
Qed.

Lemma processed_done (dbs done : Databases) (exs : list Exchange) :
  processed dbs done exs ->
  forall db, db ∈ done ->
    db ∈ dbs /\ ~ reserved (Name db)
    /\ exists ex, ex ∈ exs /\ submission db ex /\ failure ex = None.
Proof.
  induction 1 as [|d dbs done exs Hres _ IH|d dbs done exs Hres Hne Htrig _ IH
                  |d dbs done ex exs Hres Hne Hsub Hok _ IH]; intros db Hin.
  - apply elem_of_nil in Hin. contradiction.
  - destruct (IH db Hin) as (H1 & H2 & H3). split; [right; exact H1 | auto].
  - destruct (IH db Hin) as (H1 & H2 & H3). split; [right; exact H1 | auto].
  - apply elem_of_cons in Hin. destruct Hin as [-> | Hin].
    + split; [left |]. split; [exact Hres |]. exists ex. split; [left | auto].
    + destruct (IH db Hin) as (H1 & H2 & ex' & H3 & H4). split; [right; exact H1 |].
      split; [exact H2 |]. exists ex'. split; [right; exact H3 | exact H4].
Qed.

(** The databases a run hands back were all submitted. *)
Lemma loop_post_done (databases : Databases) (st st' : State)
    (dbs : Databases) (err : option error) :
  loop_post databases [] st (Ok (dbs, err)) st' ->
  forall db, db ∈ dbs ->
    db ∈ databases /\ ~ reserved (Name db)
    /\ exists rev, revision_for (directive_id db) rev.
Proof.
  intros (exs & _ & Hres) db Hin. destruct err as [e|].
  - destruct Hres as (pre & db' & post & done & exs0 & tail & -> & -> & Hpre & _).
    destruct (processed_done _ _ _ Hpre db Hin) as (H1 & H2 & ex & _ & (rev & Hrev & _) & _).
    split; [apply elem_of_app; left; exact H1 |]. split; [exact H2 |]. exists rev. exact Hrev.
  - destruct Hres as (done & -> & Hp).
    destruct (processed_done _ _ _ Hp db Hin) as (H1 & H2 & ex & _ & (rev & Hrev & _) & _).
    split; [exact H1 |]. split; [exact H2 |]. exists rev. exact Hrev.
Qed.

End Reconcile.

(** The identifier [ReplicateHost] computes for a database: it depends on
    the direction, the remote host and the name only. *)
Definition computed_id (push : bool) (remoteCouch : Couchdb) (dbName : string) : string :=
  if push then Identifier dbName (url remoteCouch dbName)
  else Identifier (url remoteCouch dbName) dbName.

Lemma directive_id_computed (remoteCouch : Couchdb) (session : Session)
    (conf : ReplicationConfig) (db : Database) :
  directive_id remoteCouch session conf db = computed_id (Push conf) remoteCouch (Name db).
Proof. apply directive_ID. Qed.

Lemma computed_id_length (push : bool) (remoteCouch : Couchdb) (dbName : string) :
  String.length (computed_id push remoteCouch dbName) = 32%nat.
Proof. unfold computed_id. destruct push; rewrite Identifier_md5_hex; apply md5_hex_length. Qed.

Lemma json_string_directive_id (remoteCouch : Couchdb) (session : Session)
    (conf : ReplicationConfig) (db : Database) :
  json_string (directive_id remoteCouch session conf db)
  = directive_id remoteCouch session conf db.
Proof.
  rewrite directive_id_computed. unfold computed_id.
  destruct (Push conf); rewrite Identifier_md5_hex; apply json_string_md5_hex.
Qed.

(** The exchanges of the three calls that come before the loop. *)
Definition error_of {A : Type} (r : A + error) : option error :=
  match r with inl _ => None | inr e => Some e end.

Lemma GetDatabases_sent (c : Couchdb) (st st1 : State) (r : Databases + error) :
  GetDatabases c st = (r, st1) ->
  sent st1 = sent st ++ [mkExchange (ReqDatabases c) (error_of r)].
Proof.
  unfold GetDatabases. destruct (getDatabases c (world st)) as [[dbs | e] w];
    intros [= <- <-]; reflexivity.
Qed.

Lemma GetSession_sent (c : Couchdb) (st st1 : State) (r : Session + error) :
  GetSession c st = (r, st1) ->
  sent st1 = sent st ++ [mkExchange (ReqSession c) (error_of r)].
Proof.
  unfold GetSession. destruct (getSession c (world st)) as [[s | e] w];
    intros [= <- <-]; reflexivity.
Qed.

Lemma GetReplicators_sent (c : Couchdb) (st st1 : State) (r : Replicators + error) :
  GetReplicators c st = (r, st1) ->
  sent st1 = sent st ++ [mkExchange (ReqGet c replicatorDocs_path) (error_of r)].
Proof.
  unfold GetReplicators.
  destruct (getJson_replicatorDocs c _ replicatorDocs_path (world st)) as [[docs [e|]] w];
    intros [= <- <-]; reflexivity.
Qed.

(** The registry a host hands out is that of some listing. *)
Lemma GetReplicators_listing (c : Couchdb) (st st1 : State) (rs : Replicators) :
  GetReplicators c st = (inl rs, st1) ->
  exists docs, rs = replicatorDocs_Replicators docs.
Proof.
  unfold GetReplicators.
  destruct (getJson_replicatorDocs c _ replicatorDocs_path (world st)) as [[docs [e|]] w];
    intros [= <- <-]. exists docs. reflexivity.
Qed.

(** [ReplicateHost], once the listing, the registry and the session are
    in, is its loop. *)
Lemma ReplicateHost_loop_eq (c remoteCouch : Couchdb) (conf : ReplicationConfig)
    (st st1 st2 st3 : State) (databases : Databases) (replicators : Replicators)
    (session : Session) :
  GetDatabases (if Push conf then c else remoteCouch) st = (inl databases, st1) ->
  GetReplicators c st1 = (inl replicators, st2) ->
  GetSession c st2 = (inl session, st3) ->
  ReplicateHost c remoteCouch conf st
  = ReplicateHost_loop c remoteCouch replicators session databases conf [] st3.
Proof. intros H1 H2 H3. unfold ReplicateHost. rewrite H1, H2, H3. reflexivity. Qed.

Lemma ReplicateHost_loop_post (c remoteCouch : Couchdb) (conf : ReplicationConfig)
    (st st1 st2 st3 st' : State) (databases : Databases) (replicators : Replicators)
    (session : Session) (res : result (Databases * option error)) :
  GetDatabases (if Push conf then c else remoteCouch) st = (inl databases, st1) ->
  GetReplicators c st1 = (inl replicators, st2) ->
  GetSession c st2 = (inl session, st3) ->
  ReplicateHost c remoteCouch conf st = (res, st') ->
  loop_post c remoteCouch replicators session conf databases [] st3 res st'.
Proof.
  intros H1 H2 H3. rewrite (ReplicateHost_loop_eq _ _ _ _ _ _ _ _ _ _ H1 H2 H3).
  apply ReplicateHost_loop_spec, same_flags_refl.
Qed.

(** ** Requests that write a directive *)

(** [p] is the address of the directive [id], with or without a
    revision. *)
Definition addresses (id p : string) : Prop :=
  p = "_replicator/" +:+ id \/ exists rev, p = "_replicator/" +:+ id +:+ "?rev=" +:+ rev.

Definition writes_to (id : string) (req : Request) : Prop :=
  match req with
  | ReqPut _ p body => addresses id p \/ json_id body = Some id
  | ReqDelete _ p => addresses id p
  | _ => False
  end.

Lemma path_cases (r : ReplicationConfig) :
  (REV r = "" /\ path r = "_replicator/" +:+ ID r)
  \/ (REV r <> "" /\ path r = "_replicator/" +:+ ID r +:+ "?rev=" +:+ REV r).
Proof.
  unfold path. destruct (String.eqb_spec (REV r) ""); [left | right]; auto.
Qed.

Lemma addresses_path (id : string) (r : ReplicationConfig) :
  String.length id = 32%nat -> String.length (ID r) = 32%nat ->
  addresses id (path r) -> ID r = id.
Proof.
  intros Hid Hr Haddr.
  assert (Hsplit : forall a b, ID r +:+ a = id +:+ b -> ID r = id).
  { intros a b H. apply append_inj_same_length in H; [tauto | congruence]. }
  destruct (path_cases r) as [[_ Hp] | [_ Hp]]; rewrite Hp in Haddr;
    destruct Haddr as [H | [rev H]]; apply String.app_inj in H.
  - exact H.
  - apply (Hsplit "" ("?rev=" +:+ rev)). rewrite append_empty_r. exact H.
  - apply (Hsplit ("?rev=" +:+ REV r) ""). rewrite append_empty_r. exact H.
  - exact (Hsplit _ _ H).
Qed.

Lemma omitempty_Some (s id : string) : omitempty s = Some id -> json_string s = id.
Proof. unfold omitempty. destruct (String.eqb s ""); [discriminate | congruence]. Qed.

Lemma put_of_writes_to (c remoteCouch : Couchdb) (session : Session)
    (conf : ReplicationConfig) (db : Database) (rev id : string) :
  String.length id = 32%nat ->
  writes_to id (put_of c remoteCouch session conf db rev) ->
  directive_id remoteCouch session conf db = id.
Proof.
  intros Hlen [Haddr | Hjson].
  - apply addresses_path in Haddr; [exact Haddr | exact Hlen |].
    change (ID (desired remoteCouch session conf db rev))
      with (directive_id remoteCouch session conf db).
    rewrite directive_id_computed. apply computed_id_length.
  - apply omitempty_Some in Hjson. rewrite <- Hjson. symmetry.
    apply json_string_directive_id.
Qed.

Lemma revision_for_triggered (replicators : Replicators) (id rev : string) :
  (exists r : Replicator, registered replicators r /\ ID r = id) ->
  (forall r : Replicator,
      registered replicators r -> ID r = id -> ReplicationState r = "triggered") ->
  ~ revision_for replicators id rev.
Proof.
  intros (r0 & Hreg0 & Hid0) Hall Hrev. destruct Hrev as [r Hreg Hid Hstate | Hnone].
  - exact (Hstate (Hall r Hreg Hid)).
  - exact (Hnone r0 Hreg0 Hid0).
Qed.

(** C1: in a run of [ReplicateHost], take a listed database whose computed
    identifier is found in the registry the run loaded, every record
    found under it being triggered (one record, in a listing of
    CouchDB).  Then no request of the run writes to that identifier (no
    PUT and no DELETE at its address, with or without a revision, and no
    PUT of a body carrying it), and the database is not among those the
    run hands back. *)
Theorem ReplicateHost_triggered_untouched (c remoteCouch : Couchdb)
    (conf : ReplicationConfig) (st st1 st2 st' : State)
    (databases : Databases) (replicators : Replicators)
    (res : result (Databases * option error)) (db : Database) :
  GetDatabases (if Push conf then c else remoteCouch) st = (inl databases, st1) ->
  GetReplicators c st1 = (inl replicators, st2) ->
  ReplicateHost c remoteCouch conf st = (res, st') ->
  db ∈ databases ->
  let id := computed_id (Push conf) remoteCouch (Name db) in
  (exists r : Replicator, registered replicators r /\ ID r = id) ->
  (forall r : Replicator,
      registered replicators r -> ID r = id -> ReplicationState r = "triggered") ->
  (exists exs, sent st' = sent st ++ exs
               /\ forall ex, ex ∈ exs -> ~ writes_to id (request ex))
  /\ (forall dbs err, res = Ok (dbs, err) -> db ∉ dbs).
Proof.
  intros Hdbs Hreps Hrun Hin id Hfound Hall.
  pose proof (GetDatabases_sent _ _ _ _ Hdbs) as Hs1.
  pose proof (GetReplicators_sent _ _ _ _ Hreps) as Hs2.
  destruct (GetSession c st2) as [[session | e] st3] eqn:Hsess;
    pose proof (GetSession_sent _ _ _ _ Hsess) as Hs3.
  - pose proof (ReplicateHost_loop_post _ _ _ _ _ _ _ _ _ _ _ _ Hdbs Hreps Hsess Hrun) as Hpost.
    split.
    + destruct (loop_post_exchanges _ _ _ _ _ _ _ _ _ _ Hpost) as (exs & Hsent & Hexs).
      eexists. split.
      { rewrite Hsent, Hs3, Hs2, Hs1, <- !app_assoc. reflexivity. }
      intros ex Hex Hw. simpl in Hex.
      repeat (apply elem_of_cons in Hex; destruct Hex as [-> | Hex]; [exact Hw |]).
      destruct (Hexs ex Hex) as (db' & rev & _ & _ & Hrev & Hreq).
      rewrite Hreq in Hw. apply put_of_writes_to in Hw; [| apply computed_id_length].
      rewrite Hw in Hrev. exact (revision_for_triggered _ _ _ Hfound Hall Hrev).
    + intros dbs err -> Hdb.
      destruct (loop_post_done _ _ _ _ _ _ _ _ _ _ Hpost db Hdb) as (_ & _ & rev & Hrev).
      rewrite directive_id_computed in Hrev.
      exact (revision_for_triggered _ _ _ Hfound Hall Hrev).
  - unfold ReplicateHost in Hrun. rewrite Hdbs, Hreps, Hsess in Hrun.
    injection Hrun as <- <-. split.
    + eexists. split.
      { rewrite Hs3, Hs2, Hs1, <- !app_assoc. reflexivity. }
      intros ex Hex Hw. simpl in Hex.
      repeat (apply elem_of_cons in Hex; destruct Hex as [-> | Hex]; [exact Hw |]).
      apply elem_of_nil in Hex. exact Hex.
    + intros dbs err [= <- _] Hdb. apply elem_of_nil in Hdb. exact Hdb.
Qed.


(** C5, as amended: one turn of the loop for a database whose name is
    neither empty nor reserved and whose directive can be marshalled.
    When the lookup finds a record that is not triggered, the directive is
    submitted with the revision of that record; when it finds none, with
    the empty revision.  The address of the PUT is
    [_replicator/<id>?rev=<revision>] when that revision is not empty and
    [_replicator/<id>] when it is empty, and the body carries [_rev]
    under the same condition; this is the only exchange of the turn. *)
Theorem ReplicateHost_body_revision (c remoteCouch : Couchdb)
    (replicators : Replicators) (session : Session) (db : Database)
    (conf : ReplicationConfig) (replicatedDbs : Databases) (st st1 st' : State)
    (found : option Replicator) (ctl : control) :
  ~ reserved (Name db) ->
  Name db <> "" ->
  let d := directive remoteCouch session conf (Name db) in
  Replicators_findById replicators (ID d) st = (found, st1) ->
  (forall r : Replicator, found = Some r -> ReplicationState r <> "triggered") ->
  let rev := match found with Some r => REV r | None => "" end in
  marshalError (set_REV d rev) = None ->
  ReplicateHost_body c remoteCouch replicators session db conf replicatedDbs st = (ctl, st') ->
  exists err,
    sent st' = sent st ++
      [mkExchange
         (ReqPut c
            (if String.eqb rev "" then "_replicator/" +:+ ID d
             else "_replicator/" +:+ ID d +:+ "?rev=" +:+ rev)
            (marshal (set_REV d rev))) err]
    /\ REV (set_REV d rev) = rev
    /\ json_rev (marshal (set_REV d rev))
       = (if String.eqb rev "" then None else Some (json_string rev))
    /\ ctl = match err with
             | Some e => Return replicatedDbs (Some e)
             | None => Continue (set_REV d rev) (replicatedDbs ++ [db])
             end.
Proof.
  intros Hres Hne d Hfind Hstate rev Hm. unfold ReplicateHost_body.
  assert (Hid : hasId (set_REV d rev) = true) by apply directive_hasId.
  destruct (Name db) as [|x name] eqn:Hname; [contradiction |].
  destruct (Ascii.eqb_spec x invalidPrefix) as [-> | _].
  { exfalso. apply Hres. exists name. reflexivity. }
  fold d. rewrite Hfind.
  destruct (Replicators_findById_spec _ _ _ _ _ Hfind) as [Hsent _].
  assert (Hsubmit :
    (let '(err, st2) := Replicate c (set_REV d rev) st1 in
     match err with
     | Some err => (Return replicatedDbs (Some err), st2)
     | None => (Continue (set_REV d rev) (replicatedDbs ++ [db]), st2)
     end) = (ctl, st') ->
    exists err,
      sent st' = sent st ++
        [mkExchange
           (ReqPut c
              (if String.eqb rev "" then "_replicator/" +:+ ID d
               else "_replicator/" +:+ ID d +:+ "?rev=" +:+ rev)
              (marshal (set_REV d rev))) err]
      /\ REV (set_REV d rev) = rev
      /\ json_rev (marshal (set_REV d rev))
       = (if String.eqb rev "" then None else Some (json_string rev))
      /\ ctl = match err with
               | Some e => Return replicatedDbs (Some e)
               | None => Continue (set_REV d rev) (replicatedDbs ++ [db])
               end).
  { unfold Replicate, toJson. rewrite Hm.
    rewrite Hid. unfold c_putJson.
    destruct (putJson c (marshal (set_REV d rev)) (path (set_REV d rev)) (world st1))
      as [err w].
    intros Heq. exists err.
    assert (Hst : sent st' = sent st1 ++
              [mkExchange (ReqPut c (path (set_REV d rev)) (marshal (set_REV d rev))) err]
            /\ ctl = match err with
                     | Some e => Return replicatedDbs (Some e)
                     | None => Continue (set_REV d rev) (replicatedDbs ++ [db])
                     end).
    { destruct err; injection Heq as <- <-; split; reflexivity. }
    destruct Hst as [Hst Hctl]. rewrite Hst, Hsent.
    split; [reflexivity |]. split; [reflexivity |]. split; [reflexivity | exact Hctl]. }
  destruct found as [r|].
  - destruct (String.eqb_spec (ReplicationState r) "triggered") as [Htrig | _].
    + destruct (Hstate r eq_refl Htrig).
    + exact Hsubmit.
  - exact Hsubmit.
Qed.

Lemma ReplicateHost_body_reserved (c remoteCouch : Couchdb)
    (replicators : Replicators) (session : Session) (db : Database)
    (conf : ReplicationConfig) (replicatedDbs : Databases) (st : State) :
  reserved (Name db) ->
  ReplicateHost_body c remoteCouch replicators session db conf replicatedDbs st
  = (Continue conf replicatedDbs, st).
Proof. intros [rest Hname]. unfold ReplicateHost_body. rewrite Hname. reflexivity. Qed.

Lemma ReplicateHost_loop_filter (c remoteCouch : Couchdb)
    (replicators : Replicators) (session : Session) (databases : Databases) :
  forall (conf : ReplicationConfig) (replicatedDbs : Databases) (st : State),
    ReplicateHost_loop c remoteCouch replicators session databases conf replicatedDbs st
    = ReplicateHost_loop c remoteCouch replicators session
        (List.filter (fun db => negb (reservedb (Name db))) databases) conf replicatedDbs st.
Proof.
  induction databases as [|db rest IH]; intros conf acc st; [reflexivity |].
  simpl. unfold reservedb at 1. destruct (reserved_dec (Name db)) as [Hres | Hres]; simpl.
  - rewrite (ReplicateHost_body_reserved _ _ _ _ _ _ _ _ Hres). apply IH.
  - destruct (ReplicateHost_body c remoteCouch replicators session db conf acc st)
      as [[conf' acc' | dbs err |] st1]; [apply IH | reflexivity | reflexivity].
Qed.

(** C7: the registry of a listing holds, under each key, the replications
    of the rows whose identifier is not reserved and whose
    [replicationId] is that key, in the order of the listing; a
    replication is registered exactly when such a row carries it.  A turn
    of the loop of [ReplicateHost] on a database whose name is reserved
    leaves the configuration, the result list and the state as they were,
    and the whole loop runs as it does on the listing without the
    reserved names. *)
Theorem reserved_prefix_excluded :
  (forall (docs : replicatorDocs) (k : string),
      default [] (replicatorDocs_Replicators docs !! k)
      = group_of k (map row_Replicator (kept (Rows docs))))
  /\ (forall (docs : replicatorDocs) (r : Replicator),
         registered (replicatorDocs_Replicators docs) r
         <-> exists row, row ∈ Rows docs /\ ~ reserved (Id row) /\ row_Replicator row = r)
  /\ (forall c remoteCouch replicators session db conf replicatedDbs st,
         reserved (Name db) ->
         ReplicateHost_body c remoteCouch replicators session db conf replicatedDbs st
         = (Continue conf replicatedDbs, st))
  /\ (forall c remoteCouch replicators session databases conf replicatedDbs st,
         ReplicateHost_loop c remoteCouch replicators session databases conf replicatedDbs st
         = ReplicateHost_loop c remoteCouch replicators session
             (List.filter (fun db => negb (reservedb (Name db))) databases)
             conf replicatedDbs st).
Proof.
  split; [exact Replicators_lookup |]. split; [exact Replicators_registered |].
  split; [exact ReplicateHost_body_reserved |].
  intros. apply ReplicateHost_loop_filter.
Qed.





Lemma ReplicateHost_loop_no_panic (c remoteCouch : Couchdb)
    (replicators : Replicators) (session : Session) (databases : Databases)
    (conf : ReplicationConfig) (replicatedDbs : Databases) (st st' : State) :
  ReplicateHost_loop c remoteCouch replicators session databases conf replicatedDbs st
  = (Panic, st') ->
  exists db, db ∈ databases /\ Name db = "".
Proof.
  intros Hrun. apply ReplicateHost_loop_spec with (conf := conf) in Hrun;
    [| apply same_flags_refl].
  destruct Hrun as (exs & _ & pre & db & post & done & -> & _ & Hname).
  exists db. split; [apply elem_of_app; right; left | exact Hname].
Qed.

(** C10: the two filters part on the empty identifier.  The registry keeps
    the replication of a row whose identifier is empty.  A turn of the
    loop of [ReplicateHost] on a database whose name is empty stops at the
    index [dbName[0]], whatever the state, so a run whose listing starts
    with such a database panics; and a run panics only when some listed
    database has the empty name. *)
Theorem empty_identifier_filters :
  (forall (docs : replicatorDocs) (row : Row),
      row ∈ Rows docs -> Id row = "" ->
      registered (replicatorDocs_Replicators docs) (row_Replicator row))
  /\ (forall c remoteCouch replicators session db conf replicatedDbs st,
         Name db = "" ->
         ReplicateHost_body c remoteCouch replicators session db conf replicatedDbs st
         = (IndexOutOfRange, st))
  /\ (forall c remoteCouch conf st st1 st2 st3 db rest replicators session,
         GetDatabases (if Push conf then c else remoteCouch) st = (inl (db :: rest), st1) ->
         GetReplicators c st1 = (inl replicators, st2) ->
         GetSession c st2 = (inl session, st3) ->
         Name db = "" ->
         ReplicateHost c remoteCouch conf st = (Panic, st3))
  /\ (forall c remoteCouch conf st st',
         ReplicateHost c remoteCouch conf st = (Panic, st') ->
         exists databases st1 db,
           GetDatabases (if Push conf then c else remoteCouch) st = (inl databases, st1)
           /\ db ∈ databases /\ Name db = "").
Proof.
  split; [| split; [| split]].
  - intros docs row Hin Hid. apply Replicators_registered. exists row.
    split; [exact Hin |]. split; [| reflexivity].
    rewrite Hid. intros [rest H]. discriminate H.
  - intros c remoteCouch replicators session db conf acc st Hname.
    unfold ReplicateHost_body. rewrite Hname. reflexivity.
  - intros c remoteCouch conf st st1 st2 st3 db rest replicators session H1 H2 H3 Hname.
    rewrite (ReplicateHost_loop_eq _ _ _ _ _ _ _ _ _ _ H1 H2 H3). simpl.
    unfold ReplicateHost_body. rewrite Hname. reflexivity.
  - intros c remoteCouch conf st st' Hrun. unfold ReplicateHost in Hrun.
    destruct (GetDatabases (if Push conf then c else remoteCouch) st)
      as [[databases | e1] st1]; [| discriminate Hrun].
    destruct (GetReplicators c st1) as [[replicators | e2] st2]; [| discriminate Hrun].
    destruct (GetSession c st2) as [[session | e3] st3]; [| discriminate Hrun].
    apply ReplicateHost_loop_no_panic in Hrun. destruct Hrun as (db & Hdb & Hname).
    exists databases, st1, db. auto.
Qed.

Lemma json_id_desired (remoteCouch : Couchdb) (session : Session)
    (conf : ReplicationConfig) (db : Database) (rev : string) :
  json_id (marshal (desired remoteCouch session conf db rev))
  = Some (directive_id remoteCouch session conf db).
Proof.
  change (json_id (marshal (desired remoteCouch session conf db rev)))
    with (omitempty (directive_id remoteCouch session conf db)).
  unfold omitempty.
  destruct (String.eqb_spec (directive_id remoteCouch session conf db) "") as [H | _];
    [| rewrite json_string_directive_id; reflexivity].
  pose proof (computed_id_length (Push conf) remoteCouch (Name db)) as Hlen.
  rewrite <- directive_id_computed with (session := session), H in Hlen. discriminate Hlen.
Qed.

(** C6: two runs of [ReplicateHost] with the same hosts and configuration
    over the same listing, the first one ending without error.  Suppose
    the store keeps what it holds: every identifier registered at the
    first run is registered at the second, and so is the identifier of
    every directive the first run put with success.  Then the second run
    computes for every database the identifier the first run computed,
    finds it in its registry, and each of its PUTs is an update: it is the
    directive of a listed database, carrying the revision of a registered
    replication with that identifier which is not triggered. *)
Theorem ReplicateHost_twice (c remoteCouch : Couchdb) (conf : ReplicationConfig)
    (databases : Databases)
    (st st1 st2 st3 st' : State) (replicators1 : Replicators) (session1 : Session)
    (dbs1 : Databases)
    (su su1 su2 su3 su' : State) (replicators2 : Replicators) (session2 : Session)
    (res2 : result (Databases * option error)) :
  GetDatabases (if Push conf then c else remoteCouch) st = (inl databases, st1) ->
  GetReplicators c st1 = (inl replicators1, st2) ->
  GetSession c st2 = (inl session1, st3) ->
  ReplicateHost c remoteCouch conf st = (Ok (dbs1, None), st') ->
  GetDatabases (if Push conf then c else remoteCouch) su = (inl databases, su1) ->
  GetReplicators c su1 = (inl replicators2, su2) ->
  GetSession c su2 = (inl session2, su3) ->
  ReplicateHost c remoteCouch conf su = (res2, su') ->
  (forall r : Replicator, registered replicators1 r ->
     exists r' : Replicator, registered replicators2 r' /\ ID r' = ID r) ->
  (forall ex c' p body id,
     ex ∈ sent st' -> request ex = ReqPut c' p body -> failure ex = None ->
     json_id body = Some id ->
     exists r' : Replicator, registered replicators2 r' /\ ID r' = id) ->
  (forall db, db ∈ databases -> ~ reserved (Name db) ->
     directive_id remoteCouch session2 conf db = directive_id remoteCouch session1 conf db
     /\ exists r : Replicator,
          registered replicators2 r /\ ID r = directive_id remoteCouch session2 conf db)
  /\ exists exs, sent su' = sent su3 ++ exs
       /\ forall ex, ex ∈ exs ->
            exists db (r : Replicator),
              db ∈ databases
              /\ registered replicators2 r
              /\ ID r = directive_id remoteCouch session2 conf db
              /\ ReplicationState r <> "triggered"
              /\ request ex = put_of c remoteCouch session2 conf db (REV r).
Proof.
  intros H1 H2 H3 Hrun1 K1 K2 K3 Hrun2 Hkept Hput.
  assert (Hfound : forall db, db ∈ databases -> ~ reserved (Name db) ->
            directive_id remoteCouch session2 conf db
            = directive_id remoteCouch session1 conf db
            /\ exists r : Replicator,
                 registered replicators2 r
                 /\ ID r = directive_id remoteCouch session2 conf db).
  { intros db Hdb Hres. rewrite !directive_id_computed. split; [reflexivity |].
    rewrite <- directive_id_computed with (session := session1).
    destruct (ReplicateHost_loop_post _ _ _ _ _ _ _ _ _ _ _ _ H1 H2 H3 Hrun1)
      as (exs1 & Hsent1 & done & _ & Hp).
    destruct (processed_disposition _ _ _ _ _ _ _ _ Hp db Hdb)
      as [Hr | [(r & Hreg & Hid & _) | (_ & ex & Hex & (rev & _ & _ & Hreq) & Hok)]].
    - contradiction.
    - destruct (Hkept r Hreg) as (r' & Hreg' & Hid'). exists r'. split; [exact Hreg' | congruence].
    - apply (Hput ex c (path (desired remoteCouch session1 conf db rev))
               (marshal (desired remoteCouch session1 conf db rev))).
      + rewrite Hsent1. apply elem_of_app. right. exact Hex.
      + exact Hreq.
      + exact Hok.
      + apply json_id_desired. }
  split; [exact Hfound |].
  pose proof (ReplicateHost_loop_post _ _ _ _ _ _ _ _ _ _ _ _ K1 K2 K3 Hrun2) as Hpost.
  destruct (loop_post_exchanges _ _ _ _ _ _ _ _ _ _ Hpost) as (exs & Hsent & Hexs).
  exists exs. split; [exact Hsent |]. intros ex Hex.
  destruct (Hexs ex Hex) as (db & rev & Hdb & Hres & Hrev & Hreq).
  destruct Hrev as [r Hreg Hid Hstate | Hnone].
  - exists db, r. auto.
  - destruct (Hfound db Hdb Hres) as (_ & r & Hreg & Hid). destruct (Hnone r Hreg Hid).
Qed.

(** ** The deletion flow *)

Lemma GetReplicator_sent (c : Couchdb) (id : string) (st st1 : State)
    (fetched : Replicator) (err : option error) :
  GetReplicator c id st = ((fetched, err), st1) ->
  sent st1 = sent st ++ [mkExchange (ReqGet c ("_replicator/" +:+ id)) err].
Proof.
  unfold GetReplicator.
  destruct (getJson_Replicator c _ _ (world st)) as [[r e] w]. intros [= <- <- <-].
  reflexivity.
Qed.

(** [DeleteReplicator] fetches the record at the address of [id], and
    deletes at the address of the record it fetched. *)
Lemma DeleteReplicator_spec (c : Couchdb) (id : string) (st st' : State)
    (res : result (option error)) :
  DeleteReplicator c id st = (res, st') ->
  exists fetched ferr st1,
    GetReplicator c id st = ((fetched, ferr), st1)
    /\ match ferr with
       | Some e => res = Ok (Some e) /\ st' = st1
       | None =>
           exists body derr st2,
             c_del c (path fetched) st1 = ((body, derr), st2)
             /\ sent st2 = sent st1 ++ [mkExchange (ReqDelete c (path fetched)) derr]
             /\ match body with
                | None => res = Panic /\ st' = st2
                | Some b => res = Ok derr /\ st' = mkState (close b (world st2)) (sent st2)
                end
       end.
Proof.
  unfold DeleteReplicator.
  destruct (GetReplicator c id st) as [[fetched [e|]] st1] eqn:Hget.
  - intros [= <- <-]. exists fetched, (Some e), st1. auto.
  - destruct (c_del c (path fetched) st1) as [[body derr] st2] eqn:Hdel.
    intros Heq. exists fetched, None, st1. split; [reflexivity |].
    exists body, derr, st2. split; [exact Hdel |]. split.
    + unfold c_del in Hdel. destruct (del c (path fetched) (world st1)) as [[b d] w].
      injection Hdel as <- <- <-. reflexivity.
    + destruct body; injection Heq as <- <-; auto.
Qed.

(** The exchanges of one [DeleteReplicator]: a fetch that fails, or a
    fetch followed by the delete at the address of the fetched record. *)
Definition delete_exchanges (c : Couchdb) (id : string) (res : result (option error))
    (exs : list Exchange) : Prop :=
  (exists e, res = Ok (Some e)
             /\ exs = [mkExchange (ReqGet c ("_replicator/" +:+ id)) (Some e)])
  \/ (exists (fetched : Replicator) derr,
        exs = [mkExchange (ReqGet c ("_replicator/" +:+ id)) None;
               mkExchange (ReqDelete c (path fetched)) derr]
        /\ (res = Ok derr \/ res = Panic)).

Lemma DeleteReplicator_exchanges (c : Couchdb) (id : string) (st st' : State)
    (res : result (option error)) :
  DeleteReplicator c id st = (res, st') ->
  exists exs, sent st' = sent st ++ exs /\ delete_exchanges c id res exs.
Proof.
  intros Hrun. apply DeleteReplicator_spec in Hrun.
  destruct Hrun as (fetched & ferr & st1 & Hget & Hrest).
  apply GetReplicator_sent in Hget. destruct ferr as [e|].
  - destruct Hrest as [-> ->]. eexists. split; [exact Hget |]. left. exists e. auto.
  - destruct Hrest as (body & derr & st2 & _ & Hsent & Hbody).
    exists [mkExchange (ReqGet c ("_replicator/" +:+ id)) None;
            mkExchange (ReqDelete c (path fetched)) derr].
    split.
    + destruct body as [b|]; destruct Hbody as [_ ->]; simpl;
        rewrite Hsent, Hget, <- app_assoc; reflexivity.
    + right. exists fetched, derr. split; [reflexivity |].
      destruct body; destruct Hbody as [-> _]; auto.
Qed.

(** [deleted c rs exs]: every replication of [rs] was fetched and deleted
    with success, by the exchanges [exs]. *)
Inductive deleted (c : Couchdb) : list Replicator -> list Exchange -> Prop :=
| deleted_nil : deleted c [] []
| deleted_cons (r : Replicator) rs exs1 exs :
    delete_exchanges c (ID r) (Ok None) exs1 ->
    deleted c rs exs ->
    deleted c (r :: rs) (exs1 ++ exs).

(** A deletion pass over [rs], by its result. *)
Definition deletion_post (c : Couchdb) (rs : list Replicator) (st : State)
    (res : result (option error)) (st' : State) : Prop :=
  exists exs, sent st' = sent st ++ exs /\
    ((res = Ok None /\ deleted c rs exs)
     \/ (res <> Ok None
         /\ exists pre (r : Replicator) post exs0 tail,
              rs = pre ++ r :: post /\ deleted c pre exs0
              /\ delete_exchanges c (ID r) res tail /\ exs = exs0 ++ tail)).

Lemma DeleteAllReplicators_group_spec (c : Couchdb) (rs : list Replicator) :
  forall (st st' : State) (res : result (option error)),
    DeleteAllReplicators_group c rs st = (res, st') ->
    deletion_post c rs st res st'.
Proof.
  induction rs as [|r rs IH]; intros st st' res; simpl.
  - intros [= <- <-]. exists []. split; [rewrite app_nil_r; reflexivity |].
    left. split; [reflexivity | constructor].
  - destruct (DeleteReplicator c (ID r) st) as [res1 st1] eqn:Hone.
    apply DeleteReplicator_exchanges in Hone. destruct Hone as (exs1 & Hsent1 & Hex1).
    assert (Hstop : res1 <> Ok None -> (res1, st1) = (res, st') ->
                    deletion_post c (r :: rs) st res st').
    { intros Hne [= <- <-]. exists exs1. split; [exact Hsent1 |]. right.
      split; [exact Hne |]. exists [], r, rs, [], exs1.
      split; [reflexivity |]. split; [constructor |]. auto. }
    destruct res1 as [[e|]|]; try (apply Hstop; discriminate).
    intros Hrest. apply IH in Hrest. destruct Hrest as (exs & Hsent & Hcases).
    exists (exs1 ++ exs). split; [rewrite Hsent, Hsent1, <- app_assoc; reflexivity |].
    destruct Hcases as [[-> Hdel] | (Hne & pre & r' & post & exs0 & tail & -> & Hpre & Htail & ->)].
    + left. split; [reflexivity |]. constructor; assumption.
    + right. split; [exact Hne |]. exists (r :: pre), r', post, (exs1 ++ exs0), tail.
      split; [reflexivity |]. split; [constructor; assumption |].
      split; [exact Htail | rewrite app_assoc; reflexivity].
Qed.

Lemma DeleteAllReplicators_group_app (c : Couchdb) (l1 l2 : list Replicator) (st : State) :
  DeleteAllReplicators_group c (l1 ++ l2) st
  = match DeleteAllReplicators_group c l1 st with
    | (Ok None, st1) => DeleteAllReplicators_group c l2 st1
    | stop => stop
    end.
Proof.
  revert st. induction l1 as [|r l1 IH]; intros st; simpl; [reflexivity |].
  destruct (DeleteReplicator c (ID r) st) as [[[e|]|] st1]; auto.
Qed.

(** The two nested ranges visit the replications of the groups in turn. *)
Lemma DeleteAllReplicators_groups_concat (c : Couchdb)
    (groups : list (string * list Replicator)) (st : State) :
  DeleteAllReplicators_groups c groups st
  = DeleteAllReplicators_group c (concat (map snd groups)) st.
Proof.
  revert st. induction groups as [|[k l] groups IH]; intros st; simpl; [reflexivity |].
  rewrite DeleteAllReplicators_group_app.
  destruct (DeleteAllReplicators_group c l st) as [[[e|]|] st1]; auto.
Qed.

(** [deletions c rs st st']: from the state [st], [DeleteReplicator]
    called in turn on the replications of [rs] returned without error
    each time, and left the state [st']. *)
Inductive deletions (c : Couchdb) : list Replicator -> State -> State -> Prop :=
| deletions_nil st : deletions c [] st st
| deletions_cons (r : Replicator) rs st st1 st' :
    DeleteReplicator c (ID r) st = (Ok None, st1) ->
    deletions c rs st1 st' ->
    deletions c (r :: rs) st st'.

Lemma deletions_run (c : Couchdb) (rs : list Replicator) (st st' : State) :
  deletions c rs st st' -> DeleteAllReplicators_group c rs st = (Ok None, st').
Proof.
  induction 1 as [st | r rs st st1 st' Hone _ IH]; simpl; [reflexivity |].
  rewrite Hone. exact IH.
Qed.

Lemma deletions_stop (c : Couchdb) (pre : list Replicator) (r : Replicator)
    (post : list Replicator) (st st3 st4 : State) (stop : result (option error)) :
  deletions c pre st st3 ->
  DeleteReplicator c (ID r) st3 = (stop, st4) ->
  stop <> Ok None ->
  DeleteAllReplicators_group c (pre ++ r :: post) st = (stop, st4).
Proof.
  intros Hpre Hone Hne. rewrite DeleteAllReplicators_group_app.
  rewrite (deletions_run _ _ _ _ Hpre). simpl. rewrite Hone.
  destruct stop as [[e|]|]; [reflexivity | contradiction | reflexivity].
Qed.

Lemma DeleteAllReplicators_group_deletions (c : Couchdb) (rs : list Replicator) :
  forall (st st' : State) (res : result (option error)),
    DeleteAllReplicators_group c rs st = (res, st') ->
    (res = Ok None /\ deletions c rs st st')
    \/ (res <> Ok None
        /\ exists pre (r : Replicator) post st3,
             rs = pre ++ r :: post /\ deletions c pre st st3
             /\ DeleteReplicator c (ID r) st3 = (res, st')).
Proof.
  induction rs as [|r rs IH]; intros st st' res; simpl.
  - intros [= <- <-]. left. split; [reflexivity | constructor].
  - destruct (DeleteReplicator c (ID r) st) as [res1 st1] eqn:Hone.
    assert (Hstop : res1 <> Ok None -> (res1, st1) = (res, st') ->
              (res = Ok None /\ deletions c (r :: rs) st st')
              \/ (res <> Ok None
                  /\ exists pre (r0 : Replicator) post st3,
                       r :: rs = pre ++ r0 :: post /\ deletions c pre st st3
                       /\ DeleteReplicator c (ID r0) st3 = (res, st'))).
    { intros Hne [= <- <-]. right. split; [exact Hne |].
      exists [], r, rs, st. split; [reflexivity |]. split; [constructor | exact Hone]. }
    destruct res1 as [[e|]|]; try (apply Hstop; discriminate).
    intros Hrest. apply IH in Hrest.
    destruct Hrest as [[-> Hdel] | (Hne & pre & r0 & post & st3 & -> & Hpre & Hr0)].
    + left. split; [reflexivity |]. econstructor; eassumption.
    + right. split; [exact Hne |]. exists (r :: pre), r0, post, st3.
      split; [reflexivity |]. split; [econstructor; eassumption | exact Hr0].
Qed.

(** C9, as amended: [DeleteAllReplicators] loads the registry; when that
    fails it hands back no registry and the error.  Otherwise it ranges
    over the groups in the order the runtime picks and calls
    [DeleteReplicator] on each registered replication in turn.  When
    every call returns without error it hands back the registry it
    loaded and no error.  At the first call that returns an error it
    stops, in the state that call left, and hands back the whole registry
    it loaded together with that error; and these are the only ways it
    returns.  [DeleteReplicator] fetches the record at the address of the
    identifier; when the fetch fails it returns that error; otherwise it
    sends one DELETE, at the address of the record it fetched, and, the
    body being there to close, returns the error of that DELETE. *)
Theorem DeleteAllReplicators_returns_registry (c : Couchdb) (st st1 st2 : State)
    (replicators : Replicators) (groups : list (string * list Replicator)) :
  GetReplicators c st = (inl replicators, st1) ->
  range replicators st1 = (groups, st2) ->
  Permutation groups (map_to_list replicators)
  /\ sent st2 = sent st1
  /\ (forall st',
        deletions c (concat (map snd groups)) st2 st' ->
        DeleteAllReplicators c st = (Ok (Some replicators, None), st'))
  /\ (forall pre (r : Replicator) post st3 e st4,
        concat (map snd groups) = pre ++ r :: post ->
        deletions c pre st2 st3 ->
        DeleteReplicator c (ID r) st3 = (Ok (Some e), st4) ->
        DeleteAllReplicators c st = (Ok (Some replicators, Some e), st4))
  /\ (forall reg err st',
        DeleteAllReplicators c st = (Ok (reg, err), st') ->
        reg = Some replicators
        /\ match err with
           | None => deletions c (concat (map snd groups)) st2 st'
           | Some e =>
               exists pre (r : Replicator) post st3,
                 concat (map snd groups) = pre ++ r :: post
                 /\ deletions c pre st2 st3
                 /\ DeleteReplicator c (ID r) st3 = (Ok (Some e), st')
           end)
  /\ (forall s e s1,
        GetReplicators c s = (inr e, s1) ->
        DeleteAllReplicators c s = (Ok (None, Some e), s1))
  /\ (forall id s res s',
        DeleteReplicator c id s = (res, s') ->
        exists fetched ferr s1,
          GetReplicator c id s = ((fetched, ferr), s1)
          /\ sent s1 = sent s ++ [mkExchange (ReqGet c ("_replicator/" +:+ id)) ferr]
          /\ match ferr with
             | Some e => res = Ok (Some e) /\ s' = s1
             | None =>
                 exists body derr s2,
                   c_del c (path fetched) s1 = ((body, derr), s2)
                   /\ sent s' = sent s1 ++ [mkExchange (ReqDelete c (path fetched)) derr]
                   /\ match body with
                      | Some _ => res = Ok derr
                      | None => res = Panic
                      end
             end).
Proof.
  intros Hget Hrange.
  pose proof (range_spec _ _ _ _ Hrange) as (Hsent0 & Hperm & _).
  assert (Hunfold : DeleteAllReplicators c st
            = match DeleteAllReplicators_group c (concat (map snd groups)) st2 with
              | (Ok err, s) => (Ok (Some replicators, err), s)
              | (Panic, s) => (Panic, s)
              end).
  { unfold DeleteAllReplicators. rewrite Hget, Hrange.
    rewrite DeleteAllReplicators_groups_concat. reflexivity. }
  split; [exact Hperm |]. split; [exact Hsent0 |]. split; [| split; [| split; [| split]]].
  - intros st' Hdel. rewrite Hunfold, (deletions_run _ _ _ _ Hdel). reflexivity.
  - intros pre r post st3 e st4 Hsplit Hpre Hone. rewrite Hunfold, Hsplit.
    rewrite (deletions_stop _ _ _ post _ _ _ _ Hpre Hone) by discriminate. reflexivity.
  - intros reg err st' Hrun. rewrite Hunfold in Hrun.
    destruct (DeleteAllReplicators_group c (concat (map snd groups)) st2)
      as [stop s] eqn:Hgroup.
    apply DeleteAllReplicators_group_deletions in Hgroup.
    destruct stop as [stop_err|]; [| discriminate Hrun].
    injection Hrun as <- <- <-. split; [reflexivity |].
    destruct Hgroup as [[Hstop Hdel] | (Hne & pre & r & post & st3 & Hsplit & Hpre & Hone)].
    + injection Hstop as ->. exact Hdel.
    + destruct stop_err as [e|]; [| contradiction].
      exists pre, r, post, st3. auto.
  - intros s e s1 Hfail. unfold DeleteAllReplicators. rewrite Hfail. reflexivity.
  - intros id s res s' Hone. apply DeleteReplicator_spec in Hone.
    destruct Hone as (fetched & ferr & s1 & Hfetch & Hrest).
    exists fetched, ferr, s1. split; [exact Hfetch |].
    split; [exact (GetReplicator_sent _ _ _ _ _ _ Hfetch) |].
    destruct ferr as [e|]; [exact Hrest |].
    destruct Hrest as (body & derr & s2 & Hdel & Hsent & Hbody).
    exists body, derr, s2. split; [exact Hdel |].
    destruct body as [b|]; destruct Hbody as [-> ->]; simpl; auto.
Qed.

End Properties.

(** * The properties at work in the small world *)

Import Fixture.

(** The directive of the spec's example, and a copy of it that differs
    in identifier and revision only. *)
Definition inventory_directive : @ReplicationConfig api :=
  @mkReplicationConfig api "" "" "inventory" "https://remote.example/inventory"
    false true true "admin" true.

Definition inventory_directive' : @ReplicationConfig api :=
  @mkReplicationConfig api "stale" "7-c0ffee" "inventory" "https://remote.example/inventory"
    false true true "admin" true.

Example inventory_identifier :
  ID (GenerateId inventory_directive) = "f61466455f37ea1fa5ec6f95981b5c11".
Proof. vm_compute. reflexivity. Qed.

Lemma GenerateId_md5_of_source_target_witness :
  ID (GenerateId inventory_directive)
  = sprintf_x (MD5.sum (bytes_of_string
                 ("inventory" +:+ "https://remote.example/inventory")))
  /\ ID (GenerateId inventory_directive') = ID (GenerateId inventory_directive)
  /\ String.length (ID (GenerateId inventory_directive)) = 32%nat
  /\ Forall lower_hex (list_ascii_of_string (ID (GenerateId inventory_directive)))
  /\ set_ID (GenerateId inventory_directive) (ID inventory_directive) = inventory_directive.
Proof.
  apply (GenerateId_md5_of_source_target inventory_directive inventory_directive');
    reflexivity.
Defined.

(** C4 fails as stated: "a" and "aa" are different strings, and the two
    orders give the same identifier, that of "aaa". *)
Lemma Identifier_not_order_sensitive :
  ~ (forall s t : string, s <> t -> @Identifier api s t <> @Identifier api t s).
Proof.
  intros H. apply (H "a" "aa"); [discriminate |].
  rewrite !(@Identifier_md5_hex api). apply (f_equal md5_hex). reflexivity.
Qed.

Lemma Identifier_swap_witness :
  @Identifier api "a" "aa" = @Identifier api "aa" "a".
Proof.
  apply (proj1 (proj2 (@Identifier_swap api "a" "aa"))). reflexivity.
Defined.

(** Worlds: the listing, registry and session every run of the small
    world gets, and the state after the three calls before the loop. *)
Definition listing (w : TestWorld) : list (@Database) :=
  map mkDatabase (tw_databases w).

Definition registry (w : TestWorld) : gmap string (list (@Replicator api)) :=
  @replicatorDocs_Replicators api
    (@mkReplicatorDocs api (Z.of_nat (length (tw_rows w))) 0 (tw_rows w)).

Definition admin : @Session api := @mkSession api "admin".

Definition listed (w : TestWorld) : @State api env :=
  (@GetDatabases api env c (start w)).2.

Definition loaded (w : TestWorld) : @State api env :=
  (@GetReplicators api env c (listed w)).2.

Definition ready (w : TestWorld) : @State api env :=
  (@GetSession api env c (loaded w)).2.

(** The identifier of the push of [inventory] to the remote host. *)
Definition inventory_id : string := "56b301b408671285853faed0a9c61e7f".

Example inventory_id_computed :
  @computed_id api true remoteCouch "inventory" = inventory_id.
Proof. vm_compute. reflexivity. Qed.

(** The directive of [inventory] is registered and triggered. *)
Definition world_triggered : TestWorld :=
  mkTestWorld ["inventory"; "_users"; "orders"]
    [stored inventory_id "3-abc" "inventory" "http://remote/inventory" "triggered"]
    [] false.

Lemma ReplicateHost_triggered_untouched_witness :
  (exists exs,
      sent (@ReplicateHost api env c remoteCouch (conf true) (start world_triggered)).2
      = sent (start world_triggered) ++ exs
      /\ forall ex, ex ∈ exs -> ~ writes_to inventory_id (request ex))
  /\ (forall dbs err,
        (@ReplicateHost api env c remoteCouch (conf true) (start world_triggered)).1
        = Ok (dbs, err) ->
        mkDatabase "inventory" ∉ dbs).
Proof.
  apply (@ReplicateHost_triggered_untouched api env c remoteCouch (conf true)
           (start world_triggered) (listed world_triggered) (loaded world_triggered)
           (@ReplicateHost api env c remoteCouch (conf true) (start world_triggered)).2
           (listing world_triggered) (registry world_triggered)
           (@ReplicateHost api env c remoteCouch (conf true) (start world_triggered)).1
           (mkDatabase "inventory")).
  - reflexivity.
  - reflexivity.
  - vm_compute. reflexivity.
  - left.
  - exists (row_Replicator
              (stored inventory_id "3-abc" "inventory" "http://remote/inventory" "triggered")).
    split; [| reflexivity].
    exists ("rep-" +:+ inventory_id), [row_Replicator
              (stored inventory_id "3-abc" "inventory" "http://remote/inventory" "triggered")].
    split; [vm_compute; reflexivity | left].
  - intros r Hreg _. apply (@Replicators_registered api) in Hreg.
    destruct Hreg as (row & Hrow & _ & <-). simpl in Hrow.
    apply list_elem_of_singleton in Hrow. subst row. reflexivity.
Defined.

(** The PUT for [orders] is refused; [inventory] comes before it and
    [archive] after it. *)
Definition world_rejecting : TestWorld :=
  mkTestWorld ["inventory"; "_users"; "orders"; "archive"] [] ["orders"] false.

Example world_rejecting_run :
  (@ReplicateHost api env c remoteCouch (conf true) (start world_rejecting)).1
  = Ok ([mkDatabase "inventory"], Some "conflict").
Proof. vm_compute. reflexivity. Qed.


(** The directive of [inventory] is registered, completed, at revision
    [3-abc]. *)
Definition world_completed : TestWorld :=
  mkTestWorld ["inventory"]
    [stored inventory_id "3-abc" "inventory" "http://remote/inventory" "completed"]
    [] false.

Definition inventory_push : @ReplicationConfig api :=
  @directive api remoteCouch admin (conf true) "inventory".

Lemma ReplicateHost_body_revision_witness :
  exists err,
    sent (@ReplicateHost_body api env c remoteCouch (registry world_completed) admin
            (mkDatabase "inventory") (conf true) [] (ready world_completed)).2
    = sent (ready world_completed) ++
        [mkExchange
           (ReqPut c ("_replicator/" +:+ inventory_id +:+ "?rev=" +:+ "3-abc")
              (marshal (set_REV inventory_push "3-abc"))) err]
    /\ REV (set_REV inventory_push "3-abc") = "3-abc"
    /\ json_rev (marshal (set_REV inventory_push "3-abc")) = Some "3-abc"
    /\ (@ReplicateHost_body api env c remoteCouch (registry world_completed) admin
          (mkDatabase "inventory") (conf true) [] (ready world_completed)).1
       = match err with
         | Some e => Return [] (Some e)
         | None => Continue (set_REV inventory_push "3-abc") ([] ++ [mkDatabase "inventory"])
         end.
Proof.
  apply (@ReplicateHost_body_revision api env c remoteCouch (registry world_completed)
           admin (mkDatabase "inventory") (conf true) [] (ready world_completed)
           (@Replicators_findById api env (registry world_completed) inventory_id
              (ready world_completed)).2
           (@ReplicateHost_body api env c remoteCouch (registry world_completed) admin
              (mkDatabase "inventory") (conf true) [] (ready world_completed)).2
           (@Replicators_findById api env (registry world_completed) inventory_id
              (ready world_completed)).1
           (@ReplicateHost_body api env c remoteCouch (registry world_completed) admin
              (mkDatabase "inventory") (conf true) [] (ready world_completed)).1).
  - intros [rest H]. discriminate H.
  - discriminate.
  - vm_compute. reflexivity.
  - intros r H. vm_compute in H. injection H as <-. discriminate.
  - reflexivity.
  - vm_compute. reflexivity.
Defined.

(** C5 fails as stated: here the directive of [inventory] is registered
    and completed, with an empty revision.  The lookup finds it, it is not
    triggered, and the directive is put at the address without a [rev]
    parameter. *)
Definition world_no_revision : TestWorld :=
  mkTestWorld ["inventory"]
    [stored inventory_id "" "inventory" "http://remote/inventory" "completed"]
    [] false.

Lemma update_without_rev_parameter :
  (exists r : @Replicator api,
      (@Replicators_findById api env (registry world_no_revision)
         (@computed_id api true remoteCouch "inventory") (ready world_no_revision)).1
      = Some r
      /\ ReplicationState r <> "triggered"
      /\ REV r = "")
  /\ (exists body,
        sent (@ReplicateHost api env c remoteCouch (conf true) (start world_no_revision)).2
        = sent (ready world_no_revision)
            ++ [mkExchange (ReqPut c ("_replicator/" +:+ inventory_id) body) None]
        /\ json_rev body = None)
  /\ "_replicator/" +:+ inventory_id
     <> "_replicator/" +:+ inventory_id +:+ "?rev=" +:+ "".
Proof.
  split; [| split].
  - eexists. split; [vm_compute; reflexivity |]. split; [discriminate | reflexivity].
  - eexists. split; [vm_compute; reflexivity | reflexivity].
  - vm_compute. discriminate.
Qed.

(** A first run over an empty registry, and a second one once the store
    holds the directive the first run put. *)
Definition world_first : TestWorld :=
  mkTestWorld ["inventory"; "_users"] [] [] false.

Definition world_second : TestWorld :=
  mkTestWorld ["inventory"; "_users"]
    [stored inventory_id "1-967a" "inventory" "http://remote/inventory" "completed"]
    [] false.

Definition inventory_record : @Replicator api :=
  row_Replicator
    (stored inventory_id "1-967a" "inventory" "http://remote/inventory" "completed").

Lemma inventory_record_registered :
  @registered api (registry world_second) inventory_record /\ ID inventory_record = inventory_id.
Proof.
  split; [| reflexivity].
  exists ("rep-" +:+ inventory_id), [inventory_record].
  split; [vm_compute; reflexivity | left].
Qed.

Lemma ReplicateHost_twice_witness :
  (forall db, db ∈ listing world_first -> ~ reserved (Name db) ->
     @directive_id api remoteCouch admin (conf true) db
     = @directive_id api remoteCouch admin (conf true) db
     /\ exists r : @Replicator api,
          @registered api (registry world_second) r
          /\ ID r = @directive_id api remoteCouch admin (conf true) db)
  /\ exists exs,
       sent (@ReplicateHost api env c remoteCouch (conf true) (start world_second)).2
       = sent (ready world_second) ++ exs
       /\ forall ex, ex ∈ exs ->
            exists db (r : @Replicator api),
              db ∈ listing world_first
              /\ @registered api (registry world_second) r
              /\ ID r = @directive_id api remoteCouch admin (conf true) db
              /\ ReplicationState r <> "triggered"
              /\ request ex = @put_of api c remoteCouch admin (conf true) db (REV r).
Proof.
  apply (@ReplicateHost_twice api env c remoteCouch (conf true) (listing world_first)
           (start world_first) (listed world_first) (loaded world_first) (ready world_first)
           (@ReplicateHost api env c remoteCouch (conf true) (start world_first)).2
           (registry world_first) admin [mkDatabase "inventory"]
           (start world_second) (listed world_second) (loaded world_second)
           (ready world_second)
           (@ReplicateHost api env c remoteCouch (conf true) (start world_second)).2
           (registry world_second) admin
           (@ReplicateHost api env c remoteCouch (conf true) (start world_second)).1).
  - reflexivity.
  - reflexivity.
  - reflexivity.
  - vm_compute. reflexivity.
  - reflexivity.
  - reflexivity.
  - reflexivity.
  - vm_compute. reflexivity.
  - intros r Hreg. apply (@Replicators_registered api) in Hreg.
    destruct Hreg as (row & Hrow & _). simpl in Hrow. apply elem_of_nil in Hrow.
    contradiction.
  - intros ex c' p body id Hex Hreq Hok Hid. vm_compute in Hex.
    exists inventory_record. split; [apply inventory_record_registered |].
    repeat (apply elem_of_cons in Hex;
            destruct Hex as [-> | Hex]; [try discriminate Hreq |]).
    + simpl in Hreq. injection Hreq as _ _ <-. simpl in Hid. injection Hid as <-.
      reflexivity.
    + apply elem_of_nil in Hex. contradiction.
Defined.

(** A listing with a design document among the directives. *)
Definition world_reserved : TestWorld :=
  mkTestWorld ["_users"; "inventory"]
    [stored "_design/_replicator" "1-d" "" "" "";
     stored inventory_id "1-967a" "inventory" "http://remote/inventory" "completed"]
    [] false.

Lemma reserved_prefix_excluded_witness :
  default [] (registry world_reserved !! ("rep-" +:+ inventory_id)) = [inventory_record]
  /\ default [] (registry world_reserved !! "rep-_design/_replicator") = []
  /\ @ReplicateHost_body api env c remoteCouch (registry world_reserved) admin
       (mkDatabase "_users") (conf true) [] (ready world_reserved)
     = (Continue (conf true) [], ready world_reserved)
  /\ @ReplicateHost_loop api env c remoteCouch (registry world_reserved) admin
       (listing world_reserved) (conf true) [] (ready world_reserved)
     = @ReplicateHost_loop api env c remoteCouch (registry world_reserved) admin
         [mkDatabase "inventory"] (conf true) [] (ready world_reserved).
Proof.
  destruct (@reserved_prefix_excluded api env) as (Hgroup & _ & Hbody & Hloop).
  split; [| split; [| split]].
  - unfold registry. rewrite Hgroup. vm_compute. reflexivity.
  - unfold registry. rewrite Hgroup. vm_compute. reflexivity.
  - apply Hbody. exists "users". reflexivity.
  - rewrite Hloop. reflexivity.
Defined.


(** The pull of [inventory] is built and sent. *)
Example pull_run :
  (@ReplicateHost api env c remoteCouch (conf false) (start world_first)).1
  = Ok ([mkDatabase "inventory"], None).
Proof. vm_compute. reflexivity. Qed.

Example pull_directive :
  map request
    (sent (@ReplicateHost api env c remoteCouch (conf false) (start world_first)).2)
  = [ReqDatabases remoteCouch;
     ReqGet c "_replicator/_all_docs?include_docs=true";
     ReqSession c;
     ReqPut c "_replicator/a35ee001d0d89514665112f84c842e5f"
       (marshal (set_REV (@directive api remoteCouch admin (conf false) "inventory") ""))].
Proof. vm_compute. reflexivity. Qed.

(** Two registered directives, and a store that refuses every DELETE. *)
Definition orders_id : string := "d1ff45146fa00459469ce283d795887b".

Definition world_locked : TestWorld :=
  mkTestWorld ["inventory"; "orders"]
    [stored inventory_id "1-967a" "inventory" "http://remote/inventory" "completed";
     stored orders_id "2-b1e5" "orders" "http://remote/orders" "completed"]
    [] true.

(** C9 fails as stated: the first deletion is refused, so no replication
    was deleted with success, and yet the registry handed back with the
    error holds both replications. *)
Lemma DeleteAllReplicators_returns_undeleted :
  (@DeleteAllReplicators api env c (start world_locked)).1
  = Ok (Some (registry world_locked), Some "conflict")
  /\ @registered api (registry world_locked) inventory_record
  /\ (exists r : @Replicator api,
        @registered api (registry world_locked) r /\ ID r = orders_id)
  /\ Forall (fun ex => forall c' p, request ex = ReqDelete c' p -> failure ex <> None)
       (sent (@DeleteAllReplicators api env c (start world_locked)).2).
Proof.
  split; [vm_compute; reflexivity |]. split; [| split].
  - exists ("rep-" +:+ inventory_id), [inventory_record].
    split; [vm_compute; reflexivity | left].
  - exists (row_Replicator
              (stored orders_id "2-b1e5" "orders" "http://remote/orders" "completed")).
    split; [| reflexivity].
    exists ("rep-" +:+ orders_id),
      [row_Replicator (stored orders_id "2-b1e5" "orders" "http://remote/orders" "completed")].
    split; [vm_compute; reflexivity | left].
  - vm_compute. repeat constructor; intros c' p H; discriminate.
Qed.

Lemma DeleteAllReplicators_returns_registry_witness :
  exists st4,
    @DeleteAllReplicators api env c (start world_locked)
    = (Ok (Some (registry world_locked), Some "conflict"), st4).
Proof.
  destruct (@DeleteAllReplicators_returns_registry api env c (start world_locked)
              (@GetReplicators api env c (start world_locked)).2
              (@range api env (registry world_locked)
                 (@GetReplicators api env c (start world_locked)).2).2
              (registry world_locked) (map_to_list (registry world_locked))
              eq_refl eq_refl) as (_ & _ & _ & Hstop & _).
  eexists. eapply (Hstop []).
  - vm_compute. reflexivity.
  - constructor.
  - vm_compute. reflexivity.
Defined.

(** A listing that starts with a database without a name, and a
    directive listed without an identifier. *)
Definition world_nameless : TestWorld :=
  mkTestWorld [""; "inventory"]
    [stored "" "1-967a" "inventory" "http://remote/inventory" "completed"]
    [] false.

Lemma empty_identifier_filters_witness :
  @registered api (registry world_nameless)
    (row_Replicator (stored "" "1-967a" "inventory" "http://remote/inventory" "completed"))
  /\ @ReplicateHost api env c remoteCouch (conf true) (start world_nameless)
     = (Panic, ready world_nameless).
Proof.
  destruct (@empty_identifier_filters api env) as (Hkept & _ & Hpanic & _).
  split.
  - apply Hkept; [left | reflexivity].
  - apply (Hpanic c remoteCouch (conf true) (start world_nameless)
             (listed world_nameless) (loaded world_nameless) (ready world_nameless)
             (mkDatabase "") [mkDatabase "inventory"] (registry world_nameless) admin);
      reflexivity.
Defined.

(** * Further properties of the package *)

Section Further.
Context {api : Api} {env : Environment}.

(** ** [Replicate] *)

(** X1: [Replicate] either stops on the marshalling error without
    touching the state, or makes exactly one PUT on [c].  The body is
    marshalled before an identifier is generated: it carries [_id] only
    when the caller set one, as JSON writes it (the identifier itself
    when it is plain ASCII), while the address always names a document,
    by the identifier of the caller as it is, or by the MD5 identifier
    when there was none. *)
Theorem Replicate_exchange (c : Couchdb) (conf : ReplicationConfig) (st st' : State)
    (err : option error) :
  Replicate c conf st = (err, st') ->
  match marshalError conf with
  | Some e => err = Some e /\ st' = st
  | None =>
      let id := if String.eqb (ID conf) "" then md5_hex (Source conf +:+ Target conf)
                else ID conf in
      id <> ""
      /\ sent st' = sent st ++
           [mkExchange (ReqPut c (path (set_ID conf id)) (marshal conf)) err]
      /\ json_id (marshal conf)
         = (if String.eqb (ID conf) "" then None else Some (json_string (ID conf)))
      /\ (ID conf <> "" -> Forall is_ascii (list_ascii_of_string (ID conf)) ->
          json_id (marshal conf) = Some (ID conf)
          /\ path (set_ID conf id) = path conf)
  end.
Proof.
  unfold Replicate, toJson. destruct (marshalError conf) as [e|].
  - intros [= <- <-]. auto.
  - assert (Hjson : json_id (marshal conf)
                    = if String.eqb (ID conf) "" then None
                      else Some (json_string (ID conf)))
      by reflexivity.
    assert (Hascii : ID conf <> "" -> Forall is_ascii (list_ascii_of_string (ID conf)) ->
                     json_id (marshal conf) = Some (ID conf)).
    { intros Hne Hall. rewrite Hjson.
      destruct (String.eqb_spec (ID conf) ""); [contradiction |].
      rewrite (json_string_ascii _ Hall). reflexivity. }
    revert Hjson Hascii. generalize (marshal conf) as body. intros body Hjson Hascii.
    unfold hasId, c_putJson. simpl.
    destruct (String.eqb_spec (ID conf) "") as [Hid | Hid]; simpl.
    + destruct (putJson c body (path (GenerateId conf)) (world st)) as [e w].
      intros [= <- <-]. split; [apply md5_hex_nonempty |]. split; [reflexivity |].
      split; [exact Hjson |]. intros Hne. contradiction.
    + replace (set_ID conf (ID conf)) with conf by (destruct conf; reflexivity).
      destruct (putJson c body (path conf) (world st)) as [e w].
      intros [= <- <-]. split; [exact Hid |]. split; [reflexivity |].
      split; [exact Hjson |]. intros Hne Hall. split; [apply Hascii; assumption | reflexivity].
Qed.

(** ** The registry *)

(** X2: whatever order the runtime ranges the registry in, [findById]
    answers with a registered replication that has the identifier asked
    for, and answers not found exactly when no registered replication has
    it. *)
Theorem findById_registered (rs : Replicators)
    (groups : list (string * list Replicator)) (id : string) :
  Permutation groups (map_to_list rs) ->
  (forall r : Replicator, findById groups id = Some r -> registered rs r /\ ID r = id)
  /\ (findById groups id = None <-> forall r : Replicator, registered rs r -> ID r <> id).
Proof.
  intros Hperm.
  assert (Hgroups : forall k l, (k, l) ∈ groups <-> rs !! k = Some l).
  { intros k l. rewrite <- elem_of_map_to_list. split; intros H.
    - eapply elem_of_Permutation_proper; [symmetry; exact Hperm | exact H].
    - eapply elem_of_Permutation_proper; [exact Hperm | exact H]. }
  split.
  - intros r Hfind. apply findById_Some in Hfind.
    destruct Hfind as (k & l & Hin & Hr & Hid). split; [| exact Hid].
    exists k, l. split; [apply Hgroups, Hin | exact Hr].
  - split.
    + intros Hnone r (k & l & Hk & Hr).
      eapply findById_None; [exact Hnone | apply Hgroups, Hk | exact Hr].
    + intros Hall. destruct (findById groups id) as [r|] eqn:Hfind; [| reflexivity].
      apply findById_Some in Hfind. destruct Hfind as (k & l & Hin & Hr & Hid).
      exfalso. apply (Hall r); [| exact Hid]. exists k, l.
      split; [apply Hgroups, Hin | exact Hr].
Qed.

(** X3: when no two registered replications share an identifier, the
    answer of [findById] does not depend on the order of the range. *)
Theorem findById_order_independent (rs : Replicators)
    (groups groups' : list (string * list Replicator)) (id : string) :
  Permutation groups (map_to_list rs) ->
  Permutation groups' (map_to_list rs) ->
  (forall r r' : Replicator,
      registered rs r -> registered rs r' -> ID r = ID r' -> r = r') ->
  findById groups id = findById groups' id.
Proof.
  intros Hp Hp' Huniq.
  destruct (findById_registered rs groups id Hp) as [Hsome Hnone].
  destruct (findById_registered rs groups' id Hp') as [Hsome' Hnone'].
  destruct (findById groups id) as [r|] eqn:Hf.
  - destruct (Hsome r eq_refl) as [Hreg Hid].
    destruct (findById groups' id) as [r'|] eqn:Hf'.
    + destruct (Hsome' r' eq_refl) as [Hreg' Hid'].
      f_equal. apply Huniq; [exact Hreg | exact Hreg' | congruence].
    + exfalso. destruct Hnone' as [Hnone' _]. exact (Hnone' eq_refl r Hreg Hid).
  - symmetry. apply Hnone'. apply Hnone. reflexivity.
Qed.

Lemma add_registered (m : Replicators) (r x : Replicator) :
  registered (add m r) x <-> x = r \/ registered m x.
Proof.
  unfold registered, add. split.
  - intros (k & l & Hk & Hx). rewrite lookup_insert in Hk.
    destruct (decide (ReplicationId r = k)) as [<- | Hne].
    + injection Hk as <-. apply elem_of_app in Hx. destruct Hx as [Hx | Hx].
      * right. destruct (m !! ReplicationId r) as [l|] eqn:Hm.
        -- exists (ReplicationId r), l. auto.
        -- apply elem_of_nil in Hx. contradiction.
      * left. apply list_elem_of_singleton in Hx. exact Hx.
    + right. exists k, l. auto.
  - intros [-> | (k & l & Hk & Hx)].
    + exists (ReplicationId r), (default [] (m !! ReplicationId r) ++ [r]).
      split; [apply lookup_insert_eq | apply elem_of_app; right; left].
    + destruct (decide (ReplicationId r = k)) as [<- | Hne].
      * exists (ReplicationId r), (default [] (m !! ReplicationId r) ++ [r]).
        split; [apply lookup_insert_eq |]. rewrite Hk. apply elem_of_app. left. exact Hx.
      * exists k, l. split; [rewrite lookup_insert_ne by exact Hne; exact Hk | exact Hx].
Qed.

(** X4: a replication added to a registry is then found by its
    identifier: in any order of range, [findById] answers with a
    replication that has this identifier; and every replication that was
    registered before is still registered. *)
Theorem add_findById (m : Replicators) (r : Replicator)
    (groups : list (string * list Replicator)) :
  Permutation groups (map_to_list (add m r)) ->
  (exists r' : Replicator, findById groups (ID r) = Some r' /\ ID r' = ID r)
  /\ (forall x : Replicator, registered m x -> registered (add m r) x).
Proof.
  intros Hperm. split.
  - destruct (findById_registered (add m r) groups (ID r) Hperm) as [Hsome Hnone].
    destruct (findById groups (ID r)) as [r'|] eqn:Hf.
    + exists r'. split; [reflexivity | apply (Hsome r' eq_refl)].
    + exfalso. destruct Hnone as [Hnone _].
      apply (Hnone eq_refl r); [apply add_registered; left |]; reflexivity.
  - intros x Hx. apply add_registered. right. exact Hx.
Qed.

Lemma concat_snd_Permutation (g g' : list (string * list Replicator)) :
  Permutation g g' -> Permutation (concat (map snd g)) (concat (map snd g')).
Proof.
  induction 1 as [| [k l] g g' _ IH | [k l] [k' l'] g | g1 g2 g3 _ IH1 _ IH2]; simpl.
  - constructor.
  - apply Permutation_app_head, IH.
  - rewrite !app_assoc. apply Permutation_app_tail, Permutation_app_comm.
  - etransitivity; eassumption.
Qed.

Lemma add_Permutation (m : Replicators) (r : Replicator) :
  Permutation (concat (map snd (map_to_list (add m r))))
              (concat (map snd (map_to_list m)) ++ [r]).
Proof.
  unfold add. destruct (m !! ReplicationId r) as [l|] eqn:Hk; simpl.
  - rewrite <- insert_delete_eq.
    rewrite (concat_snd_Permutation _ _
               (map_to_list_insert (delete (ReplicationId r) m) (ReplicationId r) (l ++ [r])
                  (lookup_delete_eq m (ReplicationId r)))).
    rewrite <- (concat_snd_Permutation _ _ (map_to_list_delete m (ReplicationId r) l Hk)).
    simpl. rewrite <- !app_assoc. apply Permutation_app_head, Permutation_app_comm.
  - rewrite (concat_snd_Permutation _ _
               (map_to_list_insert m (ReplicationId r) [r] Hk)).
    simpl. apply Permutation_cons_append.
Qed.

Lemma Replicators_fold_Permutation (rows : list Row) (m : Replicators) :
  Permutation
    (concat (map snd (map_to_list
       (fold_left (fun replicators row =>
                     if ignored (Id row) then replicators
                     else add replicators (row_Replicator row)) rows m))))
    (concat (map snd (map_to_list m)) ++ map row_Replicator (kept rows)).
Proof.
  revert m. induction rows as [|row rows IH]; intros m; simpl.
  - rewrite app_nil_r. reflexivity.
  - rewrite ignored_reserved. destruct (reservedb (Id row)); simpl; [apply IH |].
    rewrite IH, add_Permutation, <- app_assoc. reflexivity.
Qed.

(** X5: the registry of a listing loses and invents nothing: ranged in
    any order, its groups hold the replications of the kept rows (those
    whose identifier is not reserved), each as many times as it is
    listed.  No group is empty, and every replication sits in the group
    of its own [replicationId]. *)
Theorem Replicators_groups (docs : replicatorDocs)
    (groups : list (string * list Replicator)) :
  Permutation groups (map_to_list (replicatorDocs_Replicators docs)) ->
  Permutation (concat (map snd groups)) (map row_Replicator (kept (Rows docs)))
  /\ forall k l, (k, l) ∈ groups ->
       l <> [] /\ Forall (fun r : Replicator => ReplicationId r = k) l.
Proof.
  intros Hperm. split.
  - rewrite (concat_snd_Permutation _ _ Hperm). unfold replicatorDocs_Replicators.
    rewrite Replicators_fold_Permutation, map_to_list_empty. reflexivity.
  - intros k l Hin.
    assert (Hk : replicatorDocs_Replicators docs !! k = Some l).
    { apply elem_of_map_to_list.
      eapply elem_of_Permutation_proper; [symmetry; exact Hperm | exact Hin]. }
    split.
    + destruct (Replicators_fold (Rows docs) ∅) as [_ Hne].
      apply (Hne (fun k0 l0 H => ltac:(rewrite lookup_empty in H; discriminate H)) k l Hk).
    + pose proof (Replicators_lookup docs k) as Hl. rewrite Hk in Hl. simpl in Hl.
      rewrite Hl. apply Forall_forall. intros r Hr.
      apply list_elem_of_In, filter_In in Hr. destruct Hr as [_ Hr].
      apply String.eqb_eq. exact Hr.
Qed.

(** ** [ReplicateHost] *)

(** X6: the three calls before the loop.  When the listing cannot be had,
    [ReplicateHost] hands back the empty list with that error after this
    one exchange; when the registry cannot be loaded, after these two;
    when the session cannot be had, after these three.  No directive is
    put in any of these cases.  Over an empty listing it hands back the
    empty list without error after the three exchanges. *)
Theorem ReplicateHost_preliminaries (c remoteCouch : Couchdb) (conf : ReplicationConfig)
    (st st' : State) (res : result (Databases * option error)) :
  ReplicateHost c remoteCouch conf st = (res, st') ->
  let masterCouch := if Push conf then c else remoteCouch in
  (forall e st1,
      GetDatabases masterCouch st = (inr e, st1) ->
      res = Ok ([], Some e)
      /\ sent st' = sent st ++ [mkExchange (ReqDatabases masterCouch) (Some e)])
  /\ (forall databases st1 e st2,
        GetDatabases masterCouch st = (inl databases, st1) ->
        GetReplicators c st1 = (inr e, st2) ->
        res = Ok ([], Some e)
        /\ sent st' = sent st ++ [mkExchange (ReqDatabases masterCouch) None;
                                  mkExchange (ReqGet c replicatorDocs_path) (Some e)])
  /\ (forall databases st1 replicators st2 e st3,
        GetDatabases masterCouch st = (inl databases, st1) ->
        GetReplicators c st1 = (inl replicators, st2) ->
        GetSession c st2 = (inr e, st3) ->
        res = Ok ([], Some e)
        /\ sent st' = sent st ++ [mkExchange (ReqDatabases masterCouch) None;
                                  mkExchange (ReqGet c replicatorDocs_path) None;
                                  mkExchange (ReqSession c) (Some e)])
  /\ (forall st1 replicators st2 session st3,
        GetDatabases masterCouch st = (inl [], st1) ->
        GetReplicators c st1 = (inl replicators, st2) ->
        GetSession c st2 = (inl session, st3) ->
        res = Ok ([], None)
        /\ sent st' = sent st ++ [mkExchange (ReqDatabases masterCouch) None;
                                  mkExchange (ReqGet c replicatorDocs_path) None;
                                  mkExchange (ReqSession c) None]).
Proof.
  intros Hrun masterCouch. unfold ReplicateHost in Hrun. fold masterCouch in Hrun.
  split; [| split; [| split]].
  - intros e st1 H1. rewrite H1 in Hrun. injection Hrun as <- <-.
    split; [reflexivity |]. apply (GetDatabases_sent _ _ _ _ H1).
  - intros databases st1 e st2 H1 H2. rewrite H1, H2 in Hrun. injection Hrun as <- <-.
    split; [reflexivity |].
    rewrite (GetReplicators_sent _ _ _ _ H2), (GetDatabases_sent _ _ _ _ H1), <- app_assoc.
    reflexivity.
  - intros databases st1 replicators st2 e st3 H1 H2 H3. rewrite H1, H2, H3 in Hrun.
    injection Hrun as <- <-. split; [reflexivity |].
    rewrite (GetSession_sent _ _ _ _ H3), (GetReplicators_sent _ _ _ _ H2),
      (GetDatabases_sent _ _ _ _ H1), <- !app_assoc. reflexivity.
  - intros st1 replicators st2 session st3 H1 H2 H3. rewrite H1, H2, H3 in Hrun.
    simpl in Hrun. injection Hrun as <- <-. split; [reflexivity |].
    rewrite (GetSession_sent _ _ _ _ H3), (GetReplicators_sent _ _ _ _ H2),
      (GetDatabases_sent _ _ _ _ H1), <- !app_assoc. reflexivity.
Qed.

(** X7: what [ReplicateHost] asks, and of whom.  It never sends a DELETE.
    Its only GET is the listing of the directives, and that GET, the
    session request and every PUT go to the local host; the remote host
    is asked for nothing but the list of its databases, and only when
    [Push] is not set. *)
Theorem ReplicateHost_requests (c remoteCouch : Couchdb) (conf : ReplicationConfig)
    (st st' : State) (res : result (Databases * option error)) :
  ReplicateHost c remoteCouch conf st = (res, st') ->
  exists exs,
    sent st' = sent st ++ exs
    /\ forall ex, ex ∈ exs ->
         match request ex with
         | ReqDatabases c' => c' = (if Push conf then c else remoteCouch)
         | ReqSession c' => c' = c
         | ReqGet c' p => c' = c /\ p = replicatorDocs_path
         | ReqPut c' _ _ => c' = c
         | ReqDelete _ _ => False
         end.
Proof.
  intros Hrun. unfold ReplicateHost in Hrun.
  destruct (GetDatabases (if Push conf then c else remoteCouch) st)
    as [[databases | e1] st1] eqn:Hdbs;
    pose proof (GetDatabases_sent _ _ _ _ Hdbs) as Hs1; simpl in Hs1.
  2:{ injection Hrun as <- <-. eexists. split; [exact Hs1 |].
      intros ex Hex. apply list_elem_of_singleton in Hex. subst ex. reflexivity. }
  destruct (GetReplicators c st1) as [[replicators | e2] st2] eqn:Hreps;
    pose proof (GetReplicators_sent _ _ _ _ Hreps) as Hs2; simpl in Hs2.
  2:{ injection Hrun as <- <-. eexists. split.
      { rewrite Hs2, Hs1, <- app_assoc. reflexivity. }
      intros ex Hex. simpl in Hex.
      repeat (apply elem_of_cons in Hex; destruct Hex as [-> | Hex]; [simpl; auto |]).
      apply elem_of_nil in Hex. contradiction. }
  destruct (GetSession c st2) as [[session | e3] st3] eqn:Hsess;
    pose proof (GetSession_sent _ _ _ _ Hsess) as Hs3; simpl in Hs3.
  2:{ injection Hrun as <- <-. eexists. split.
      { rewrite Hs3, Hs2, Hs1, <- !app_assoc. reflexivity. }
      intros ex Hex. simpl in Hex.
      repeat (apply elem_of_cons in Hex; destruct Hex as [-> | Hex]; [simpl; auto |]).
      apply elem_of_nil in Hex. contradiction. }
  apply ReplicateHost_loop_spec with (conf := conf) in Hrun; [| apply same_flags_refl].
  destruct (loop_post_exchanges _ _ _ _ _ _ _ _ _ _ Hrun) as (exs & Hsent & Hexs).
  eexists. split.
  { rewrite Hsent, Hs3, Hs2, Hs1, <- !app_assoc. reflexivity. }
  intros ex Hex. simpl in Hex.
  repeat (apply elem_of_cons in Hex; destruct Hex as [-> | Hex]; [simpl; auto |]).
  destruct (Hexs ex Hex) as (db & rev & _ & _ & _ & Hreq). rewrite Hreq. reflexivity.
Qed.

Lemma same_flags_sym (a b : ReplicationConfig) : same_flags a b -> same_flags b a.
Proof. intros (H1 & H2 & H3 & H4). repeat split; congruence. Qed.

Lemma same_flags_trans (a b d : ReplicationConfig) :
  same_flags a b -> same_flags b d -> same_flags a d.
Proof. intros (H1 & H2 & H3 & H4) (K1 & K2 & K3 & K4). repeat split; congruence. Qed.

(** Two turns of the loop that start from configurations with the same
    flags do the same. *)
Definition control_same (x y : control) : Prop :=
  match x, y with
  | Continue a acc, Continue b acc' => same_flags a b /\ acc = acc'
  | Return dbs e, Return dbs' e' => dbs = dbs' /\ e = e'
  | IndexOutOfRange, IndexOutOfRange => True
  | _, _ => False
  end.

Lemma ReplicateHost_body_same_flags (c remoteCouch : Couchdb) (replicators : Replicators)
    (session : Session) (db : Database) (a b : ReplicationConfig)
    (acc : Databases) (st : State) :
  same_flags a b ->
  (ReplicateHost_body c remoteCouch replicators session db a acc st).2
  = (ReplicateHost_body c remoteCouch replicators session db b acc st).2
  /\ control_same (ReplicateHost_body c remoteCouch replicators session db a acc st).1
       (ReplicateHost_body c remoteCouch replicators session db b acc st).1.
Proof.
  intros Hab. unfold ReplicateHost_body.
  destruct (Name db) as [|x name]; [split; [reflexivity | exact I] |].
  destruct (Ascii.eqb x invalidPrefix); [split; [reflexivity | split; [exact Hab | reflexivity]] |].
  rewrite (directive_same_flags remoteCouch session b a (String x name)
             (same_flags_sym _ _ Hab)).
  change (ID (set_REV ?d ?r)) with (ID d). rewrite !set_REV_set_REV.
  destruct (Replicators_findById replicators
              (ID (directive remoteCouch session b (String x name))) st) as [found st1].
  assert (Hsubmit : forall rev,
    let d := set_REV (directive remoteCouch session b (String x name)) rev in
    (let '(err, st2) := Replicate c d st1 in
     match err with
     | Some err => (Return acc (Some err), st2)
     | None => (Continue d (acc ++ [db]), st2)
     end).2
    = (let '(err, st2) := Replicate c d st1 in
       match err with
       | Some err => (Return acc (Some err), st2)
       | None => (Continue d (acc ++ [db]), st2)
       end).2
    /\ control_same
         (let '(err, st2) := Replicate c d st1 in
          match err with
          | Some err => (Return acc (Some err), st2)
          | None => (Continue d (acc ++ [db]), st2)
          end).1
         (let '(err, st2) := Replicate c d st1 in
          match err with
          | Some err => (Return acc (Some err), st2)
          | None => (Continue d (acc ++ [db]), st2)
          end).1).
  { intros rev d. split; [reflexivity |].
    destruct (Replicate c d st1) as [[e|] st2]; simpl;
      [split; reflexivity | split; [apply same_flags_refl | reflexivity]]. }
  destruct found as [r|]; [| apply Hsubmit].
  destruct (String.eqb (ReplicationState r) "triggered"); [| apply Hsubmit].
  split; [reflexivity |]. split; [| reflexivity]. simpl.
  apply same_flags_sym, set_REV_flags, same_flags_refl.
Qed.

Lemma ReplicateHost_loop_same_flags (c remoteCouch : Couchdb) (replicators : Replicators)
    (session : Session) (databases : Databases) :
  forall (a b : ReplicationConfig) (acc : Databases) (st : State),
    same_flags a b ->
    ReplicateHost_loop c remoteCouch replicators session databases a acc st
    = ReplicateHost_loop c remoteCouch replicators session databases b acc st.
Proof.
  induction databases as [|db rest IH]; intros a b acc st Hab; [reflexivity |].
  simpl.
  destruct (ReplicateHost_body_same_flags c remoteCouch replicators session db a b acc st Hab)
    as [Hst Hctl].
  destruct (ReplicateHost_body c remoteCouch replicators session db a acc st) as [x sx].
  destruct (ReplicateHost_body c remoteCouch replicators session db b acc st) as [y sy].
  simpl in Hst, Hctl. subst sy.
  destruct x as [a' acc1 | d1 e1 |], y as [b' acc2 | d2 e2 |]; simpl in Hctl;
    try contradiction.
  - destruct Hctl as [Hab' <-]. apply IH, Hab'.
  - destruct Hctl as [<- <-]. reflexivity.
  - reflexivity.
Qed.

(** X8: of the configuration passed to [ReplicateHost] only the flags
    count ([Push], [Cancel], [CreateTarget], [Continuous]): identifier,
    revision, source, target and user context are overwritten for every
    database before they are used, so two configurations with the same
    flags give the same run. *)
Theorem ReplicateHost_template (c remoteCouch : Couchdb) (a b : ReplicationConfig)
    (st : State) :
  Push a = Push b ->
  Cancel a = Cancel b ->
  CreateTarget a = CreateTarget b ->
  Continuous a = Continuous b ->
  ReplicateHost c remoteCouch a st = ReplicateHost c remoteCouch b st.
Proof.
  intros H1 H2 H3 H4. unfold ReplicateHost. rewrite H1.
  destruct (GetDatabases (if Push b then c else remoteCouch) st) as [[databases | e1] st1];
    [| reflexivity].
  destruct (GetReplicators c st1) as [[replicators | e2] st2]; [| reflexivity].
  destruct (GetSession c st2) as [[session | e3] st3]; [| reflexivity].
  apply ReplicateHost_loop_same_flags. repeat split; assumption.
Qed.

(** An exchange that came back without error. *)
Definition succeeded (ex : Exchange) : bool :=
  match failure ex with None => true | Some _ => false end.

Lemma processed_succeeded (c remoteCouch : Couchdb) (replicators : Replicators)
    (session : Session) (conf : ReplicationConfig)
    (dbs done : Databases) (exs : list Exchange) :
  processed c remoteCouch replicators session conf dbs done exs ->
  List.filter succeeded exs = exs
  /\ length exs = length done
  /\ Forall (fun db => ~ reserved (Name db) /\ Name db <> "") done.
Proof.
  induction 1 as [|d dbs done exs Hres _ IH|d dbs done exs Hres Hne Htrig _ IH
                  |d dbs done ex exs Hres Hne Hsub Hok _ IH].
  - repeat split. constructor.
  - exact IH.
  - exact IH.
  - destruct IH as (IH1 & IH2 & IH3). simpl. unfold succeeded at 1. rewrite Hok, IH1, IH2.
    repeat split. constructor; [split; assumption | exact IH3].
Qed.

(** X9: the list [ReplicateHost] hands back, with or without an error, is
    a sublist of the listing, in the order of the listing, without any
    reserved or empty name; it has one database for each PUT that came
    back without error, and the run made at most one PUT more than
    that. *)
Theorem ReplicateHost_replicatedDbs (c remoteCouch : Couchdb)
    (conf : ReplicationConfig) (st st1 st2 st3 st' : State)
    (databases : Databases) (replicators : Replicators) (session : Session)
    (dbs : Databases) (err : option error) :
  GetDatabases (if Push conf then c else remoteCouch) st = (inl databases, st1) ->
  GetReplicators c st1 = (inl replicators, st2) ->
  GetSession c st2 = (inl session, st3) ->
  ReplicateHost c remoteCouch conf st = (Ok (dbs, err), st') ->
  sublist dbs databases
  /\ Forall (fun db => ~ reserved (Name db) /\ Name db <> "") dbs
  /\ exists exs,
       sent st' = sent st3 ++ exs
       /\ length (List.filter succeeded exs) = length dbs
       /\ (length exs <= S (length dbs))%nat
       /\ (err = None -> length exs = length dbs).
Proof.
  intros H1 H2 H3 Hrun.
  destruct (ReplicateHost_loop_post _ _ _ _ _ _ _ _ _ _ _ _ H1 H2 H3 Hrun)
    as (exs & Hsent & Hres).
  destruct err as [e|].
  - destruct Hres as (pre & db & post & done & exs0 & tail & -> & Hdone & Hp & Hfail & ->).
    simpl in Hdone. subst done.
    destruct (processed_succeeded _ _ _ _ _ _ _ _ Hp) as (Hf & Hlen & Hnames).
    split; [apply sublist_inserts_r, (processed_sublist _ _ _ _ _ _ _ _ Hp) |].
    split; [exact Hnames |]. exists (exs0 ++ tail). split; [exact Hsent |].
    destruct Hfail as (_ & _ & rev & _ & [[_ ->] | [_ ->]]).
    + rewrite app_nil_r, Hf. repeat split; [exact Hlen | lia | discriminate].
    + rewrite List.filter_app, Hf, !length_app. simpl.
      repeat split; [lia | lia | discriminate].
  - destruct Hres as (done & Hdone & Hp). simpl in Hdone. subst done.
    destruct (processed_succeeded _ _ _ _ _ _ _ _ Hp) as (Hf & Hlen & Hnames).
    split; [apply (processed_sublist _ _ _ _ _ _ _ _ Hp) |].
    split; [exact Hnames |]. exists exs. split; [exact Hsent |].
    rewrite Hf. repeat split; [exact Hlen | lia | intros _; exact Hlen].
Qed.

(** ** The deletion flow *)

(** X10: [DeleteReplicator] first fetches the record at
    [_replicator/<id>].  When the fetch fails it hands that error back
    and sends no DELETE.  Otherwise it sends exactly one DELETE, at the
    address of the record it fetched, and hands back the outcome of that
    DELETE (or panics on a nil body).  It never sends a PUT. *)
Theorem DeleteReplicator_requests (c : Couchdb) (id : string) (st st' : State)
    (res : result (option error)) :
  DeleteReplicator c id st = (res, st') ->
  exists fetched ferr st1,
    GetReplicator c id st = ((fetched, ferr), st1)
    /\ match ferr with
       | Some e =>
           res = Ok (Some e)
           /\ sent st' = sent st ++ [mkExchange (ReqGet c ("_replicator/" +:+ id)) (Some e)]
       | None =>
           exists derr,
             sent st' = sent st ++ [mkExchange (ReqGet c ("_replicator/" +:+ id)) None;
                                    mkExchange (ReqDelete c (path fetched)) derr]
             /\ (res = Ok derr \/ res = Panic)
       end.
Proof.
  intros Hrun. apply DeleteReplicator_spec in Hrun.
  destruct Hrun as (fetched & ferr & st1 & Hget & Hrest).
  exists fetched, ferr, st1. split; [exact Hget |].
  apply GetReplicator_sent in Hget. destruct ferr as [e|].
  - destruct Hrest as [-> ->]. split; [reflexivity | exact Hget].
  - destruct Hrest as (body & derr & st2 & _ & Hsent & Hbody). exists derr.
    destruct body as [b|]; destruct Hbody as [-> ->]; simpl;
      (split; [rewrite Hsent, Hget, <- app_assoc; reflexivity | auto]).
Qed.

Lemma deleted_exchanges (c : Couchdb) (rs : list Replicator) (exs : list Exchange) :
  deleted c rs exs ->
  length exs = (2 * length rs)%nat
  /\ Forall (fun ex => failure ex = None) exs
  /\ (forall r : Replicator, r ∈ rs ->
        mkExchange (ReqGet c ("_replicator/" +:+ ID r)) None ∈ exs)
  /\ length (List.filter (fun ex => match request ex with
                                    | ReqDelete _ _ => true
                                    | _ => false
                                    end) exs) = length rs.
Proof.
  induction 1 as [|r rs exs1 exs H1 _ IH].
  - repeat split; [constructor |]. intros r Hr. apply elem_of_nil in Hr. contradiction.
  - destruct IH as (IH1 & IH2 & IH3 & IH4).
    destruct H1 as [(e & He & _) | (fetched & derr & -> & [He | He])];
      [discriminate He | | discriminate He].
    injection He as <-. simpl. repeat split.
    + rewrite IH1. lia.
    + repeat constructor. exact IH2.
    + intros r' Hr. apply elem_of_cons in Hr. destruct Hr as [-> | Hr]; [left |].
      right. right. apply IH3, Hr.
    + rewrite IH4. reflexivity.
Qed.

Lemma registered_concat (rs : Replicators) (groups : list (string * list Replicator))
    (r : Replicator) :
  Permutation groups (map_to_list rs) ->
  registered rs r <-> r ∈ concat (map snd groups).
Proof.
  intros Hperm. rewrite list_elem_of_In, in_concat. split.
  - intros (k & l & Hk & Hr). exists l. split; [| apply list_elem_of_In, Hr].
    apply in_map_iff. exists (k, l). split; [reflexivity |].
    apply list_elem_of_In. eapply elem_of_Permutation_proper; [exact Hperm |].
    apply elem_of_map_to_list, Hk.
  - intros (l & Hl & Hr). apply in_map_iff in Hl. destruct Hl as ([k l'] & <- & Hin).
    exists k, l'. split; [| apply list_elem_of_In, Hr].
    apply elem_of_map_to_list. eapply elem_of_Permutation_proper; [symmetry; exact Hperm |].
    apply list_elem_of_In, Hin.
Qed.

(** X11: a deletion pass that ends without error fetched and deleted
    every registered replication: after the listing it made two
    exchanges for each registered replication, a GET at its address and a
    DELETE, all without error, and as many DELETEs as there are
    registered replications.  Over an empty registry it sends nothing
    after the listing. *)
Theorem DeleteAllReplicators_complete (c : Couchdb) (st st1 st' : State)
    (replicators replicators' : Replicators) :
  GetReplicators c st = (inl replicators, st1) ->
  DeleteAllReplicators c st = (Ok (Some replicators', None), st') ->
  replicators' = replicators
  /\ exists exs,
       sent st' = sent st1 ++ exs
       /\ length exs = (2 * length (concat (map snd (map_to_list replicators))))%nat
       /\ Forall (fun ex => failure ex = None) exs
       /\ (forall r : Replicator, registered replicators r ->
             mkExchange (ReqGet c ("_replicator/" +:+ ID r)) None ∈ exs)
       /\ length (List.filter (fun ex => match request ex with
                                         | ReqDelete _ _ => true
                                         | _ => false
                                         end) exs)
          = length (concat (map snd (map_to_list replicators)))
       /\ (replicators = ∅ -> exs = []).
Proof.
  intros Hget Hrun. unfold DeleteAllReplicators in Hrun. rewrite Hget in Hrun.
  destruct (range replicators st1) as [groups st2] eqn:Hrange.
  apply range_spec in Hrange. destruct Hrange as (Hsent0 & Hperm & _).
  rewrite DeleteAllReplicators_groups_concat in Hrun.
  destruct (DeleteAllReplicators_group c (concat (map snd groups)) st2)
    as [stop st3] eqn:Hgroup.
  apply DeleteAllReplicators_group_spec in Hgroup.
  destruct Hgroup as (exs & Hsent & Hcases).
  destruct stop as [[e|]|]; try discriminate Hrun. injection Hrun as <- <-.
  split; [reflexivity |].
  destruct Hcases as [[_ Hdel] | [Hne _]]; [| contradiction].
  destruct (deleted_exchanges _ _ _ Hdel) as (Hlen & Hok & Hgets & Hdels).
  pose proof (Permutation_length (concat_snd_Permutation _ _ Hperm)) as Hcount.
  exists exs. split; [rewrite Hsent, Hsent0; reflexivity |].
  split; [rewrite Hlen, Hcount; reflexivity |]. split; [exact Hok |].
  split; [intros r Hr; apply Hgets, (registered_concat _ _ _ Hperm), Hr |].
  split; [rewrite Hdels, Hcount; reflexivity |].
  intros ->. rewrite map_to_list_empty in Hcount. simpl in Hcount.
  rewrite Hcount in Hlen. destruct exs; [reflexivity | discriminate Hlen].
Qed.

Lemma delete_exchanges_requests (c : Couchdb) (id : string) (res : result (option error))
    (exs : list Exchange) :
  delete_exchanges c id res exs ->
  Forall (fun ex => match request ex with
                    | ReqGet c' _ | ReqDelete c' _ => c' = c
                    | _ => False
                    end) exs.
Proof.
  intros [(e & _ & ->) | (fetched & derr & -> & _)]; repeat constructor.
Qed.

Lemma deleted_requests (c : Couchdb) (rs : list Replicator) (exs : list Exchange) :
  deleted c rs exs ->
  Forall (fun ex => match request ex with
                    | ReqGet c' _ | ReqDelete c' _ => c' = c
                    | _ => False
                    end) exs.
Proof.
  induction 1 as [|r rs exs1 exs H1 _ IH]; [constructor |].
  apply Forall_app. split; [exact (delete_exchanges_requests _ _ _ _ H1) | exact IH].
Qed.

(** X12: whatever its outcome, [DeleteAllReplicators] only sends GETs and
    DELETEs, all of them to [c]: it never puts a directive and asks for
    no session and no list of databases. *)
Theorem DeleteAllReplicators_requests (c : Couchdb) (st st' : State)
    (res : result (option Replicators * option error)) :
  DeleteAllReplicators c st = (res, st') ->
  exists exs,
    sent st' = sent st ++ exs
    /\ Forall (fun ex => match request ex with
                         | ReqGet c' _ | ReqDelete c' _ => c' = c
                         | _ => False
                         end) exs.
Proof.
  intros Hrun. unfold DeleteAllReplicators in Hrun.
  destruct (GetReplicators c st) as [[replicators | e] st1] eqn:Hget;
    pose proof (GetReplicators_sent _ _ _ _ Hget) as Hs1.
  2:{ injection Hrun as <- <-. eexists. split; [exact Hs1 |]. repeat constructor. }
  destruct (range replicators st1) as [groups st2] eqn:Hrange.
  apply range_spec in Hrange. destruct Hrange as (Hsent0 & _ & _).
  rewrite DeleteAllReplicators_groups_concat in Hrun.
  destruct (DeleteAllReplicators_group c (concat (map snd groups)) st2)
    as [stop st3] eqn:Hgroup.
  apply DeleteAllReplicators_group_spec in Hgroup.
  destruct Hgroup as (exs & Hsent & Hcases).
  assert (Hst : st' = st3) by (destruct stop; injection Hrun as _ <-; reflexivity).
  subst st'. eexists. split.
  { rewrite Hsent, Hsent0, Hs1, <- app_assoc. reflexivity. }
  apply Forall_cons. split; [reflexivity |].
  destruct Hcases as [[_ Hdel] | (_ & pre & r & post & exs0 & tail & _ & Hpre & Htail & ->)].
  - exact (deleted_requests _ _ _ Hdel).
  - apply Forall_app. split; [exact (deleted_requests _ _ _ Hpre) |].
    exact (delete_exchanges_requests _ _ _ _ Htail).
Qed.

(** ** Loading the registry, identifiers *)

(** X13: [GetReplicators] makes one GET, of the listing of the directives
    with their documents, on [c].  When the host answers with an error
    there is no registry, only that error; otherwise the registry is that
    of the rows the host answered with: it holds exactly the
    replications of those rows whose identifier is not reserved. *)
Theorem GetReplicators_registry (c : Couchdb) (st : State) (docs : replicatorDocs)
    (gerr : option error) (w : World) :
  getJson_replicatorDocs c (mkReplicatorDocs 0 0 []) replicatorDocs_path (world st)
  = ((docs, gerr), w) ->
  exists r,
    GetReplicators c st
    = (r, mkState w (sent st ++
            [mkExchange (ReqGet c "_replicator/_all_docs?include_docs=true") gerr]))
    /\ match gerr with
       | Some e => r = inr e
       | None =>
           exists rs,
             r = inl rs
             /\ forall x : Replicator,
                  registered rs x
                  <-> exists row,
                        row ∈ Rows docs /\ ~ reserved (Id row) /\ row_Replicator row = x
       end.
Proof.
  intros Hanswer. unfold GetReplicators. rewrite Hanswer. destruct gerr as [e|].
  - exists (inr e). split; reflexivity.
  - exists (inl (replicatorDocs_Replicators docs)). split; [reflexivity |].
    exists (replicatorDocs_Replicators docs). split; [reflexivity |].
    intros x. apply Replicators_registered.
Qed.

(** X14: [GenerateId] does not look at the identifier it replaces, so
    generating twice is generating once, and the identifier it leaves is
    never empty: [hasId] holds, and the address of the directive names a
    document of the collection. *)
Theorem GenerateId_idempotent (r : ReplicationConfig) :
  GenerateId (GenerateId r) = GenerateId r
  /\ hasId (GenerateId r) = true
  /\ path (GenerateId r) <> "_replicator/"
  /\ forall id : string, GenerateId (set_ID r id) = GenerateId r.
Proof.
  split; [reflexivity |].
  assert (Hid : ID (GenerateId r) <> "") by apply md5_hex_nonempty.
  split; [| split].
  - unfold hasId. destruct (String.eqb_spec (ID (GenerateId r)) ""); [contradiction | reflexivity].
  - intros Hp. apply Hid.
    destruct (path_cases (GenerateId r)) as [[_ H] | [_ H]]; rewrite H in Hp.
    + rewrite <- (append_empty_r "_replicator/") in Hp at 2.
      apply String.app_inj in Hp. exact Hp.
    + rewrite <- (append_empty_r "_replicator/") in Hp at 2.
      apply String.app_inj in Hp.
      destruct (ID (GenerateId r)); [reflexivity | discriminate Hp].
  - intros id. reflexivity.
Qed.

(** ** Printing

    [util.Printer] is declared outside [replication.go]; a printer is
    taken to be the list of the [Print] calls made on it, each with its
    format and its arguments. *)

Inductive PrintArg :=
| ArgString (s : string)
| ArgBool (b : bool).

Record PrintCall := mkPrintCall {
  print_format : string;
  print_args : list PrintArg;
}.

Definition Print (printer : list PrintCall) (format : string) (args : list PrintArg)
  : list PrintCall :=
  printer ++ [mkPrintCall format args].

Definition Replicator_PP (r : Replicator) (printer : list PrintCall) : list PrintCall :=
  let printer := Print printer "[%s]" [ArgString (ID r)] in
  let printer := Print printer " %s → %s" [ArgString (Source r); ArgString (Target r)] in
  let printer := Print printer " Replication State: %s" [ArgString (ReplicationState r)] in
  let printer := Print printer " Continuous: %v" [ArgBool (Continuous r)] in
  let printer := Print printer " Create Target: %v" [ArgBool (CreateTarget r)] in
  Print printer " Replication State Time: %v" [ArgString (ReplicationStateTime r)].

Fixpoint Replicators_PP_group (replicators : list Replicator) (printer : list PrintCall)
  : list PrintCall :=
  match replicators with
  | [] => printer
  | replicator :: rest => Replicators_PP_group rest (Replicator_PP replicator printer)
  end.

(** The groups come in the order of the range, as for [findById]. *)
Fixpoint Replicators_PP (groups : list (string * list Replicator))
    (printer : list PrintCall) : list PrintCall :=
  match groups with
  | [] => printer
  | (_, replicators) :: rest => Replicators_PP rest (Replicators_PP_group replicators printer)
  end.

Lemma Replicators_PP_group_app (rs : list Replicator) (printer : list PrintCall) :
  Replicators_PP_group rs printer
  = printer ++ concat (map (fun r => Replicator_PP r []) rs).
Proof.
  revert printer. induction rs as [|r rs IH]; intros printer; simpl.
  - rewrite app_nil_r. reflexivity.
  - rewrite IH. unfold Replicator_PP, Print. simpl. rewrite <- !app_assoc. reflexivity.
Qed.

Lemma Replicator_PP_lines_length (rs : list Replicator) :
  length (concat (map (fun r => Replicator_PP r []) rs)) = (6 * length rs)%nat.
Proof. induction rs as [|r rs IH]; simpl; [reflexivity | rewrite IH; lia]. Qed.

Lemma Replicator_PP_lines_headers (rs : list Replicator) :
  List.filter (fun call => String.eqb (print_format call) "[%s]")
    (concat (map (fun r => Replicator_PP r []) rs))
  = map (fun r : Replicator => mkPrintCall "[%s]" [ArgString (ID r)]) rs.
Proof. induction rs as [|r rs IH]; simpl; [reflexivity | rewrite IH; reflexivity]. Qed.

(** X15: printing a registry leaves what was printed before in place and
    appends, for each registered replication in the order of the range,
    the six lines of that replication; the identifiers on the [[%s]]
    lines are those of the registered replications, in that order, and
    nothing is printed for an empty registry. *)
Theorem Replicators_PP_lines (groups : list (string * list Replicator))
    (printer : list PrintCall) :
  Replicators_PP groups printer
  = printer ++ concat (map (fun r => Replicator_PP r []) (concat (map snd groups)))
  /\ length (Replicators_PP groups printer)
     = (length printer + 6 * length (concat (map snd groups)))%nat
  /\ List.filter (fun call => String.eqb (print_format call) "[%s]")
       (Replicators_PP groups [])
     = map (fun r : Replicator => mkPrintCall "[%s]" [ArgString (ID r)])
         (concat (map snd groups)).
Proof.
  assert (Heq : forall printer,
            Replicators_PP groups printer
            = printer ++ concat (map (fun r => Replicator_PP r []) (concat (map snd groups)))).
  { clear printer. induction groups as [|[k l] groups IH]; intros printer; simpl.
    - rewrite app_nil_r. reflexivity.
    - rewrite IH, Replicators_PP_group_app, map_app, concat_app, <- app_assoc. reflexivity. }
  split; [apply Heq |]. split.
  - rewrite Heq, length_app, Replicator_PP_lines_length. reflexivity.
  - rewrite Heq. simpl. apply Replicator_PP_lines_headers.
Qed.

End Further.

(** * The further properties at work in the small world *)

(** A directive the caller gave an identifier to. *)
Definition named_directive : @ReplicationConfig api :=
  @mkReplicationConfig api "nightly" "" "inventory" "https://remote.example/inventory"
    false true true "admin" true.

Lemma Replicate_exchange_witness :
  match @marshalError api env named_directive with
  | Some e =>
      (@Replicate api env c named_directive (start world_first)).1 = Some e
      /\ (@Replicate api env c named_directive (start world_first)).2 = start world_first
  | None =>
      let id := if String.eqb (ID named_directive) ""
                then md5_hex (Source named_directive +:+ Target named_directive)
                else ID named_directive in
      id <> ""
      /\ sent (@Replicate api env c named_directive (start world_first)).2
         = sent (start world_first) ++
             [mkExchange (ReqPut c (path (set_ID named_directive id))
                            (marshal named_directive))
                (@Replicate api env c named_directive (start world_first)).1]
      /\ json_id (marshal named_directive)
         = (if String.eqb (ID named_directive) "" then None
            else Some (json_string (ID named_directive)))
      /\ (ID named_directive <> "" ->
          Forall is_ascii (list_ascii_of_string (ID named_directive)) ->
          json_id (marshal named_directive) = Some (ID named_directive)
          /\ path (set_ID named_directive id) = path named_directive)
  end.
Proof.
  apply (@Replicate_exchange api env c named_directive (start world_first)
           (@Replicate api env c named_directive (start world_first)).2
           (@Replicate api env c named_directive (start world_first)).1).
  vm_compute. reflexivity.
Defined.

(** Without an identifier the PUT goes to the MD5 address and the body
    carries no [_id]. *)
Example Replicate_without_id :
  map request (sent (@Replicate api env c inventory_directive (start world_first)).2)
  = [ReqPut c "_replicator/f61466455f37ea1fa5ec6f95981b5c11" (marshal inventory_directive)]
  /\ json_id (marshal inventory_directive) = None.
Proof. vm_compute. split; reflexivity. Qed.

Lemma findById_registered_witness :
  (forall r : @Replicator api,
      @findById api (map_to_list (registry world_second)) inventory_id = Some r ->
      @registered api (registry world_second) r /\ ID r = inventory_id)
  /\ (@findById api (map_to_list (registry world_second)) inventory_id = None
      <-> forall r : @Replicator api,
            @registered api (registry world_second) r -> ID r <> inventory_id).
Proof.
  apply (@findById_registered api (registry world_second)
           (map_to_list (registry world_second)) inventory_id).
  reflexivity.
Defined.

Lemma world_locked_unique (r r' : @Replicator api) :
  @registered api (registry world_locked) r ->
  @registered api (registry world_locked) r' ->
  ID r = ID r' -> r = r'.
Proof.
  intros Hr Hr' Hid.
  apply (@Replicators_registered api) in Hr. destruct Hr as (row & Hrow & _ & <-).
  apply (@Replicators_registered api) in Hr'. destruct Hr' as (row' & Hrow' & _ & <-).
  simpl in Hrow, Hrow'.
  repeat (apply elem_of_cons in Hrow; destruct Hrow as [-> | Hrow]);
    try (apply elem_of_nil in Hrow; contradiction);
    repeat (apply elem_of_cons in Hrow'; destruct Hrow' as [-> | Hrow']);
    try (apply elem_of_nil in Hrow'; contradiction);
    first [reflexivity | discriminate Hid].
Qed.

Lemma findById_order_independent_witness :
  @findById api (map_to_list (registry world_locked)) orders_id
  = @findById api (rev (map_to_list (registry world_locked))) orders_id.
Proof.
  apply (@findById_order_independent api (registry world_locked)
           (map_to_list (registry world_locked))
           (rev (map_to_list (registry world_locked))) orders_id).
  - reflexivity.
  - symmetry. apply Permutation_rev.
  - exact world_locked_unique.
Defined.

Lemma add_findById_witness :
  (exists r' : @Replicator api,
      @findById api (map_to_list (@add api (registry world_first) inventory_record))
        (ID inventory_record) = Some r'
      /\ ID r' = ID inventory_record)
  /\ (forall x : @Replicator api,
        @registered api (registry world_first) x ->
        @registered api (@add api (registry world_first) inventory_record) x).
Proof.
  apply (@add_findById api (registry world_first) inventory_record
           (map_to_list (@add api (registry world_first) inventory_record))).
  reflexivity.
Defined.

Definition docs_of (w : TestWorld) : @replicatorDocs api :=
  @mkReplicatorDocs api (Z.of_nat (length (tw_rows w))) 0 (tw_rows w).

Lemma Replicators_groups_witness :
  Permutation (concat (map snd (map_to_list (replicatorDocs_Replicators (docs_of world_reserved)))))
    (map row_Replicator (@kept api (Rows (docs_of world_reserved))))
  /\ forall k l,
       (k, l) ∈ map_to_list (replicatorDocs_Replicators (docs_of world_reserved)) ->
       l <> [] /\ Forall (fun r : @Replicator api => ReplicationId r = k) l.
Proof.
  apply (@Replicators_groups api (docs_of world_reserved)
           (map_to_list (replicatorDocs_Replicators (docs_of world_reserved)))).
  reflexivity.
Defined.

(** A host without databases. *)
Definition world_empty : TestWorld := mkTestWorld [] [] [] false.

Lemma ReplicateHost_preliminaries_witness :
  (@ReplicateHost api env c remoteCouch (conf true) (start world_empty)).1 = Ok ([], None)
  /\ sent (@ReplicateHost api env c remoteCouch (conf true) (start world_empty)).2
     = sent (start world_empty) ++
         [mkExchange (ReqDatabases c) None;
          mkExchange (ReqGet c replicatorDocs_path) None;
          mkExchange (ReqSession c) None].
Proof.
  apply (proj2 (proj2 (proj2
           (@ReplicateHost_preliminaries api env c remoteCouch (conf true) (start world_empty)
              (@ReplicateHost api env c remoteCouch (conf true) (start world_empty)).2
              (@ReplicateHost api env c remoteCouch (conf true) (start world_empty)).1
              ltac:(vm_compute; reflexivity))))
         (listed world_empty) (registry world_empty) (loaded world_empty) admin
         (ready world_empty));
    reflexivity.
Defined.

Lemma ReplicateHost_requests_witness :
  exists exs,
    sent (@ReplicateHost api env c remoteCouch (conf false) (start world_rejecting)).2
    = sent (start world_rejecting) ++ exs
    /\ forall ex, ex ∈ exs ->
         match request ex with
         | ReqDatabases c' => c' = remoteCouch
         | ReqSession c' => c' = c
         | ReqGet c' p => c' = c /\ p = replicatorDocs_path
         | ReqPut c' _ _ => c' = c
         | ReqDelete _ _ => False
         end.
Proof.
  apply (@ReplicateHost_requests api env c remoteCouch (conf false) (start world_rejecting)
           (@ReplicateHost api env c remoteCouch (conf false) (start world_rejecting)).2
           (@ReplicateHost api env c remoteCouch (conf false) (start world_rejecting)).1).
  vm_compute. reflexivity.
Defined.

(** A configuration with the flags of [conf true] and everything else
    set to something. *)
Definition conf_filled : @ReplicationConfig api :=
  @mkReplicationConfig api "stale" "7-c0ffee" "elsewhere" "nowhere" false true true
    "nobody" true.

Lemma ReplicateHost_template_witness :
  @ReplicateHost api env c remoteCouch conf_filled (start world_completed)
  = @ReplicateHost api env c remoteCouch (conf true) (start world_completed).
Proof.
  apply (@ReplicateHost_template api env c remoteCouch conf_filled (conf true)
           (start world_completed)); reflexivity.
Defined.

Lemma ReplicateHost_replicatedDbs_witness :
  sublist [mkDatabase "inventory"] (listing world_rejecting)
  /\ Forall (fun db => ~ reserved (Name db) /\ Name db <> "") [mkDatabase "inventory"]
  /\ exists exs,
       sent (@ReplicateHost api env c remoteCouch (conf true) (start world_rejecting)).2
       = sent (ready world_rejecting) ++ exs
       /\ length (List.filter (@succeeded api) exs) = length [mkDatabase "inventory"]
       /\ (length exs <= S (length [mkDatabase "inventory"]))%nat
       /\ (Some "conflict" = None -> length exs = length [mkDatabase "inventory"]).
Proof.
  apply (@ReplicateHost_replicatedDbs api env c remoteCouch (conf true)
           (start world_rejecting) (listed world_rejecting) (loaded world_rejecting)
           (ready world_rejecting)
           (@ReplicateHost api env c remoteCouch (conf true) (start world_rejecting)).2
           (listing world_rejecting) (registry world_rejecting) admin
           [mkDatabase "inventory"] (Some "conflict")).
  - reflexivity.
  - reflexivity.
  - reflexivity.
  - vm_compute. reflexivity.
Defined.

Lemma DeleteReplicator_requests_witness :
  exists fetched ferr st1,
    @GetReplicator api env c inventory_id (start world_locked) = ((fetched, ferr), st1)
    /\ match ferr with
       | Some e =>
           (@DeleteReplicator api env c inventory_id (start world_locked)).1 = Ok (Some e)
           /\ sent (@DeleteReplicator api env c inventory_id (start world_locked)).2
              = sent (start world_locked) ++
                  [mkExchange (ReqGet c ("_replicator/" +:+ inventory_id)) (Some e)]
       | None =>
           exists derr,
             sent (@DeleteReplicator api env c inventory_id (start world_locked)).2
             = sent (start world_locked) ++
                 [mkExchange (ReqGet c ("_replicator/" +:+ inventory_id)) None;
                  mkExchange (ReqDelete c (path fetched)) derr]
             /\ ((@DeleteReplicator api env c inventory_id (start world_locked)).1 = Ok derr
                 \/ (@DeleteReplicator api env c inventory_id (start world_locked)).1 = Panic)
       end.
Proof.
  apply (@DeleteReplicator_requests api env c inventory_id (start world_locked)
           (@DeleteReplicator api env c inventory_id (start world_locked)).2
           (@DeleteReplicator api env c inventory_id (start world_locked)).1).
  vm_compute. reflexivity.
Defined.

Example DeleteReplicator_address :
  map request (sent (@DeleteReplicator api env c inventory_id (start world_locked)).2)
  = [ReqGet c "_replicator/56b301b408671285853faed0a9c61e7f";
     ReqDelete c "_replicator/56b301b408671285853faed0a9c61e7f?rev=1-967a"].
Proof. vm_compute. reflexivity. Qed.

Lemma DeleteAllReplicators_complete_witness :
  registry world_second = registry world_second
  /\ exists exs,
       sent (@DeleteAllReplicators api env c (start world_second)).2
       = sent (@GetReplicators api env c (start world_second)).2 ++ exs
       /\ length exs
          = (2 * length (concat (map snd (map_to_list (registry world_second)))))%nat
       /\ Forall (fun ex => failure ex = None) exs
       /\ (forall r : @Replicator api, @registered api (registry world_second) r ->
             mkExchange (ReqGet c ("_replicator/" +:+ ID r)) None ∈ exs)
       /\ length (List.filter (fun ex => match request ex with
                                         | ReqDelete _ _ => true
                                         | _ => false
                                         end) exs)
          = length (concat (map snd (map_to_list (registry world_second))))
       /\ (registry world_second = ∅ -> exs = []).
Proof.
  apply (@DeleteAllReplicators_complete api env c (start world_second)
           (@GetReplicators api env c (start world_second)).2
           (@DeleteAllReplicators api env c (start world_second)).2
           (registry world_second) (registry world_second)).
  - reflexivity.
  - vm_compute. reflexivity.
Defined.

Lemma DeleteAllReplicators_requests_witness :
  exists exs,
    sent (@DeleteAllReplicators api env c (start world_locked)).2
    = sent (start world_locked) ++ exs
    /\ Forall (fun ex => match request ex with
                         | ReqGet c' _ | ReqDelete c' _ => c' = c
                         | _ => False
                         end) exs.
Proof.
  apply (@DeleteAllReplicators_requests api env c (start world_locked)
           (@DeleteAllReplicators api env c (start world_locked)).2
           (@DeleteAllReplicators api env c (start world_locked)).1).
  vm_compute. reflexivity.
Defined.

Lemma GetReplicators_registry_witness :
  exists r,
    @GetReplicators api env c (start world_reserved)
    = (r, @mkState api env world_reserved
            (sent (start world_reserved) ++
               [mkExchange (ReqGet c "_replicator/_all_docs?include_docs=true") None]))
    /\ exists rs,
         r = inl rs
         /\ forall x : @Replicator api,
              @registered api rs x
              <-> exists row,
                    row ∈ Rows (docs_of world_reserved)
                    /\ ~ reserved (Id row) /\ row_Replicator row = x.
Proof.
  apply (@GetReplicators_registry api env c (start world_reserved)
           (docs_of world_reserved) None world_reserved).
  reflexivity.
Defined.
